(** * Knowledge-graph preparation and ingestion: a shallow embedding

    The development follows the two scripts of the repository.

    - [Prepare] embeds [1_prepare_data.py]: the pydantic data model
      ([Node], [Relationship], [GraphResponse]), the name table
      [KOREAN_NODE_MAP], the per-episode post-processing of [process_data]
      and the merge [combine_chunk_graphs].
    - [Ingest] embeds [2_ingest_data.py]: the writer [Neo4jCreateWriter],
      whose [run] issues one wipe query, one [MERGE] query per node and one
      [CREATE] query per relationship against a driver.

    Python values are modelled as the code has them: a [dict] is an
    insertion-ordered association list with unique keys, the [set] of seen
    keys is a [gset], exceptions are explicit error results, and the
    database is an explicit store threaded through the queries. *)

From Stdlib Require Import String Ascii ZArith List Floats DecimalString.
From Stdlib Require DecimalPos DecimalZ.
From stdpp Require Import gmap strings list fin_maps.

Open Scope string_scope.
Open Scope list_scope.

(** ** Python values shared by both scripts *)

(** [PropertyValue = Union[str, int, float, bool, None]]. *)
Inductive PropertyValue : Type :=
| PStr (s : string)
| PInt (z : Z)
| PFloat (f : float)
| PBool (b : bool)
| PNone.

(** A Python [dict] with string keys: insertion ordered, keys unique. *)
Abbreviation Dict := (list (string * PropertyValue)).

(** [d.get(k, default)]. *)
Fixpoint dict_get (d : Dict) (k : string) (default : PropertyValue) : PropertyValue :=
  match d with
  | [] => default
  | (k', v) :: d' => if String.eqb k' k then v else dict_get d' k default
  end.

(** [k in d]. *)
Fixpoint dict_mem (d : Dict) (k : string) : bool :=
  match d with
  | [] => false
  | (k', _) :: d' => if String.eqb k' k then true else dict_mem d' k
  end.

(** [d[k] = v]: an existing key keeps its position, a new key goes last. *)
Fixpoint dict_set (d : Dict) (k : string) (v : PropertyValue) : Dict :=
  match d with
  | [] => [(k, v)]
  | (k', v') :: d' =>
      if String.eqb k' k then (k', v) :: d' else (k', v') :: dict_set d' k v
  end.

(** The keys of a dictionary, in insertion order. *)
Definition dict_keys (d : Dict) : list string := map fst d.

(** [str(z)] for a Python [int]. *)
Definition py_int_str (z : Z) : string := NilZero.string_of_int (Z.to_int z).

(** ** Exceptions

    A computation that may raise returns [Ok] with its value or [Raise]
    with the text of the exception. *)
Inductive Exc (A : Type) : Type :=
| Ok (a : A)
| Raise (e : string).

Arguments Ok {A} a.
Arguments Raise {A} e.

Definition exc_bind {A B : Type} (m : Exc A) (k : A -> Exc B) : Exc B :=
  match m with
  | Ok a => k a
  | Raise e => Raise e
  end.

Notation "x <-? m ;; k" := (exc_bind m (fun x => k))
  (at level 20, m at level 99, k at level 200, right associativity).

(** A loop body applied to every element, stopping at the first exception. *)
Fixpoint exc_map {A B : Type} (f : A -> Exc B) (l : list A) : Exc (list B) :=
  match l with
  | [] => Ok []
  | x :: l' => y <-? f x ;; ys <-? exc_map f l' ;; Ok (y :: ys)
  end.

(** ** [1_prepare_data.py] *)

Module Prepare.

(** [class Node(BaseModel)]. *)
Module Node.
Record t : Type := Build
  { id : string;
    label : string;
    properties : option Dict }.
End Node.

(** [class Relationship(BaseModel)]. *)
Module Relationship.
Record t : Type := Build
  { type : string;
    start_node_id : string;
    end_node_id : string;
    properties : option Dict }.
End Relationship.

(** [class GraphResponse(BaseModel)]. *)
Module GraphResponse.
Record t : Type := Build
  { nodes : list Node.t;
    relationships : list Relationship.t }.
End GraphResponse.

(** The tuples stored in [seen]. *)
Abbreviation NodeKey := (string * string * string)%type.

Section Merge.

(** Python's builtin [str] applied to [node.properties], that is to
    [None] or to a dictionary.  The merge only ever compares its results,
    so it is kept as the builtin it is. *)
Variable py_str : option Dict -> string.

(** [node_key = (node.id, node.label, str(node.properties))]. *)
Definition node_key (node : Node.t) : NodeKey :=
  (Node.id node, Node.label node, py_str (Node.properties node)).

(** Step 1: the nested loops appending every node to [all_nodes]. *)
Definition collect_nodes (chunk_graphs : list GraphResponse.t) : list Node.t :=
  fold_left
    (fun all_nodes chunk_graph =>
       fold_left (fun acc node => acc ++ [node])
                 (GraphResponse.nodes chunk_graph) all_nodes)
    chunk_graphs [].

(** Step 2: the nested loops appending every relationship. *)
Definition collect_relationships (chunk_graphs : list GraphResponse.t)
  : list Relationship.t :=
  fold_left
    (fun all_relationships chunk_graph =>
       fold_left (fun acc relationship => acc ++ [relationship])
                 (GraphResponse.relationships chunk_graph) all_relationships)
    chunk_graphs [].

(** One iteration of the loop of step 3 over the pair
    [(unique_nodes, seen)]. *)
Definition dedup_step (st : list Node.t * gset NodeKey) (node : Node.t)
  : list Node.t * gset NodeKey :=
  let '(unique_nodes, seen) := st in
  let key := node_key node in
  if decide (key ∈ seen) then (unique_nodes, seen)
  else (unique_nodes ++ [node], seen ∪ {[ key ]}).

(** Step 3 run from an arbitrary loop state. *)
Definition dedup_from (st : list Node.t * gset NodeKey) (all_nodes : list Node.t)
  : list Node.t * gset NodeKey :=
  fold_left dedup_step all_nodes st.

(** [combine_chunk_graphs]. *)
Definition combine_chunk_graphs (chunk_graphs : list GraphResponse.t)
  : GraphResponse.t :=
  let all_nodes := collect_nodes chunk_graphs in
  let all_relationships := collect_relationships chunk_graphs in
  let '(unique_nodes, _) := dedup_from ([], ∅) all_nodes in
  GraphResponse.Build unique_nodes all_relationships.

End Merge.

(** An instance of [str] for the examples.  It renders as Python does the
    dictionaries whose strings are plain printable text without quotes or
    backslashes; a float, which the examples never use, is shown as an
    ellipsis. *)
Definition repr_plain (v : PropertyValue) : string :=
  match v with
  | PStr s => "'" +:+ s +:+ "'"
  | PInt z => py_int_str z
  | PFloat _ => "..."
  | PBool true => "True"
  | PBool false => "False"
  | PNone => "None"
  end.

Definition item_plain (kv : string * PropertyValue) : string :=
  "'" +:+ fst kv +:+ "': " +:+ repr_plain (snd kv).

Definition str_plain (p : option Dict) : string :=
  match p with
  | None => "None"
  | Some d => "{" +:+ String.concat ", " (map item_plain d) +:+ "}"
  end.

(** [KOREAN_NODE_MAP]. *)
Definition KOREAN_NODE_MAP : gmap string string :=
  list_to_map
    [ ("Tanjiro Kamado", "카마도 탄지로");
      ("Nezuko Kamado", "카마도 네즈코");
      ("Giyu Tomioka", "토미오카 기유");
      ("Sakonji Urokodaki", "우로코다키 사콘지");
      ("Sabito", "사비토");
      ("Makomo", "마코모");
      ("Zenitsu Agatsuma", "아가츠마 젠이츠");
      ("Inosuke Hashibira", "하시비라 이노스케");
      ("Kanao Tsuyuri", "츠유리 카나오");
      ("Kyojuro Rengoku", "렌고쿠 쿄쥬로");
      ("Kagaya Ubuyashiki", "우부야시키 카가야");
      ("Shinobu Kocho", "코쵸우 시노부");
      ("Sanemi Shinazugawa", "시나즈가와 사네미");
      ("Muzan Kibutsuji", "키부츠지 무잔");
      ("Susamaru", "스사마루");
      ("Yahaba", "야하바");
      ("Kyogai", "쿄우가이");
      ("Rui", "루이");
      ("Enmu", "엔무") ].

(** [KOREAN_NODE_MAP.get(english_name)]: the value under [english_name]
    when [english_name in KOREAN_NODE_MAP].  The keys are strings, so a
    value of another type is never a key. *)
Definition korean_name (english_name : PropertyValue) : option string :=
  match english_name with
  | PStr s => KOREAN_NODE_MAP !! s
  | _ => None
  end.

(** An episode record as [fetch_episode] builds it. *)
Module Episode.
Record t : Type := Build
  { season : Z;
    episode_in_season : Z;
    synopsis : option string }.
End Episode.

(** [f"{n:02d}"]: zero padding to width two, the sign included. *)
Definition format_02d (n : Z) : string :=
  let s := py_int_str n in
  if Nat.ltb (String.length s) 2 then "0" +:+ s else s.

(** [f"S{episode['season']}E{episode['episode_in_season']:02d}"]. *)
Definition episode_number_of (episode : Episode.t) : string :=
  "S" +:+ py_int_str (Episode.season episode) +:+
  "E" +:+ format_02d (Episode.episode_in_season episode).

(** Body of the loop (2): tag one relationship with the episode number. *)
Definition tag_relationship (episode_number : string) (relationship : Relationship.t)
  : Relationship.t :=
  let properties :=
    match Relationship.properties relationship with
    | None => []
    | Some d => d
    end in
  Relationship.Build
    (Relationship.type relationship)
    (Relationship.start_node_id relationship)
    (Relationship.end_node_id relationship)
    (Some (dict_set properties "episode_number" (PStr episode_number))).

(** Body of the loop (3): [node.properties.get] raises [AttributeError]
    when [node.properties] is [None]. *)
Definition localize_node (node : Node.t) : Exc Node.t :=
  match Node.properties node with
  | None => Raise "'NoneType' object has no attribute 'get'"
  | Some d =>
      let english_name := dict_get d "name" (PStr "") in
      match korean_name english_name with
      | Some korean =>
          Ok (Node.Build (Node.id node) (Node.label node)
                (Some (dict_set d "name" (PStr korean))))
      | None => Ok node
      end
  end.

(** [not episode.get("synopsis")]. *)
Definition synopsis_missing (episode : Episode.t) : bool :=
  match Episode.synopsis episode with
  | None => true
  | Some s => String.eqb s ""
  end.

Section Process.

Variable py_str : option Dict -> string.

(** The prompt header [UPDATED_TEMPLATE], a constant of the script. *)
Variable UPDATED_TEMPLATE : string.

(** [llm_call_structured], the call to the language model: for a prompt
    it returns a parsed response or raises. *)
Variable llm_call_structured : string -> Exc GraphResponse.t.

(** [UPDATED_TEMPLATE + f"\n 입력값\n {episode['synopsis']}"]. *)
Definition prompt_for (synopsis : string) : string :=
  UPDATED_TEMPLATE +:+ String "010" " 입력값" +:+ String "010" " " +:+ synopsis.

(** The body of the [try] block for one episode with a synopsis. *)
Definition process_episode (episode : Episode.t) (synopsis : string)
  : Exc GraphResponse.t :=
  let prompt := prompt_for synopsis in
  graph_response <-? llm_call_structured prompt ;;
  let episode_number := episode_number_of episode in
  let relationships :=
    map (tag_relationship episode_number)
        (GraphResponse.relationships graph_response) in
  nodes <-? exc_map localize_node (GraphResponse.nodes graph_response) ;;
  Ok (GraphResponse.Build nodes relationships).

(** One iteration of the loop over [episodes]: the state is
    [chunk_graphs]. *)
Definition process_step (chunk_graphs : list GraphResponse.t) (episode : Episode.t)
  : list GraphResponse.t :=
  if synopsis_missing episode then chunk_graphs
  else
    match process_episode episode (default "" (Episode.synopsis episode)) with
    | Ok graph_response => chunk_graphs ++ [graph_response]
    | Raise _ => chunk_graphs
    end.

(** The list [chunk_graphs] once the loop is over. *)
Definition process_chunks (episodes : list Episode.t) : list GraphResponse.t :=
  fold_left process_step episodes [].

(** [process_data]. *)
Definition process_data (episodes : list Episode.t) : Exc GraphResponse.t :=
  let chunk_graphs := process_chunks episodes in
  match chunk_graphs with
  | [] => Raise "그래프를 성공적으로 추출하지 못했습니다."
  | _ => Ok (combine_chunk_graphs py_str chunk_graphs)
  end.

End Process.

(** A row of the episode table as the loop of [fetch_episode] sees it:
    [row.find_next_sibling] finds no summary row, or it finds one, in which
    [select_one] finds no summary cell or a cell with its stripped text. *)
Inductive Row : Type :=
| NoSummaryRow
| SummaryRow (cell : option string).

(** The value of [synopsis] at the end of the loop body. *)
Definition synopsis_of_row (row : Row) : option string :=
  match row with
  | NoSummaryRow => None
  | SummaryRow cell => cell
  end.

(** One iteration of [for i, row in enumerate(rows, start=1)]: the state
    is [episodes] and the counter [i]. *)
Definition fetch_step (season : Z) (st : list Episode.t * Z) (row : Row)
  : list Episode.t * Z :=
  let '(episodes, i) := st in
  (episodes ++ [Episode.Build season i (synopsis_of_row row)], (i + 1)%Z).

(** The list [episodes] that [fetch_episode] returns for the rows of a
    page of the given season. *)
Definition episodes_of_rows (season : Z) (rows : list Row) : list Episode.t :=
  fst (fold_left (fetch_step season) rows ([], 1%Z)).

Section Collect.

(** [fetch_episode] as [collect_data] uses it: for a link it returns the
    episodes of the page or raises. *)
Variable fetch_episode : string -> Exc (list Episode.t).

(** [episode_links]. *)
Definition episode_links : list string :=
  [ "https://en.wikipedia.org/wiki/Demon_Slayer:_Kimetsu_no_Yaiba_season_1" ].

(** One iteration of the loop over the links: the state is
    [all_episodes]. *)
Definition collect_step (all_episodes : list Episode.t) (link : string)
  : list Episode.t :=
  match fetch_episode link with
  | Ok episodes => all_episodes ++ episodes
  | Raise _ => all_episodes
  end.

(** The loop of [collect_data] over a list of links. *)
Definition collect_from (links : list string) : list Episode.t :=
  fold_left collect_step links [].

(** [collect_data]. *)
Definition collect_data : list Episode.t := collect_from episode_links.

End Collect.

Section Main.

Variable py_str : option Dict -> string.
Variable UPDATED_TEMPLATE : string.
Variable llm_call_structured : string -> Exc GraphResponse.t.
Variable fetch_episode : string -> Exc (list Episode.t).

(** The file system, and [save_output] acting on it: it may write, and it
    returns or raises. *)
Variable FS : Type.
Variable save_output : list Episode.t -> GraphResponse.t -> FS -> Exc unit * FS.

(** [main], from the value of [os.getenv("OPENAI_API_KEY")]: the exit code
    and the file system it leaves. *)
Definition main (api_key : option string) (fs : FS) : Z * FS :=
  match api_key with
  | None => (1%Z, fs)
  | Some key =>
      if String.eqb key "" then (1%Z, fs)
      else
        let episodes := collect_data fetch_episode in
        match episodes with
        | [] => (1%Z, fs)
        | _ =>
            match process_data py_str UPDATED_TEMPLATE llm_call_structured episodes with
            | Raise _ => (1%Z, fs)
            | Ok final_graph =>
                match save_output episodes final_graph fs with
                | (Ok _, fs') => (0%Z, fs')
                | (Raise _, fs') => (1%Z, fs')
                end
            end
        end
  end.

End Main.

End Prepare.

(** ** The merge as the specification describes it *)

Section MergeSpec.

Variable py_str : option Dict -> string.

(** The node sequence the specification describes: a node is kept exactly
    when no node before it, in [before] or earlier in the list, has its
    key. *)
Fixpoint keep_first (before : list Prepare.Node.t) (l : list Prepare.Node.t)
  : list Prepare.Node.t :=
  match l with
  | [] => []
  | node :: l' =>
      (if decide (Prepare.node_key py_str node
                  ∈ map (Prepare.node_key py_str) before)
       then [] else [node])
        ++ keep_first (before ++ [node]) l'
  end.

(** All nodes, and all relationships, of a sequence of graphs in input
    order. *)
Definition all_nodes_of (gs : list Prepare.GraphResponse.t) : list Prepare.Node.t :=
  concat (map Prepare.GraphResponse.nodes gs).

Definition all_relationships_of (gs : list Prepare.GraphResponse.t)
  : list Prepare.Relationship.t :=
  concat (map Prepare.GraphResponse.relationships gs).

End MergeSpec.

(** ** Reading an episode tag back

    The inverse of the formatting of [episode_number]: the text after the
    leading S up to the first E is read as the season, the rest as the
    number of the episode, both as [int] reads a decimal numeral. *)

(** [int(s)] on a decimal numeral with an optional minus sign. *)
Definition read_int (s : string) : option Z :=
  option_map Z.of_int (NilZero.int_of_string s).

(** [s.partition("E")], when there is an E. *)
Fixpoint split_at_E (s : string) : option (string * string) :=
  match s with
  | EmptyString => None
  | String c s' =>
      if Ascii.eqb c "E" then Some (EmptyString, s')
      else option_map (fun '(a, b) => (String c a, b)) (split_at_E s')
  end.

Definition read_tag (tag : string) : option (Z * Z) :=
  match tag with
  | String c rest =>
      if Ascii.eqb c "S" then
        match split_at_E rest with
        | Some (season, number) =>
            match read_int season, read_int number with
            | Some s, Some n => Some (s, n)
            | _, _ => None
            end
        | None => None
        end
      else None
  | EmptyString => None
  end.

(** ** [2_ingest_data.py] *)

Module Ingest.

(** [x or {}] for an optional dictionary. *)
Definition or_empty (x : option Dict) : Dict :=
  match x with
  | None => []
  | Some [] => []
  | Some d => d
  end.

(** The graph types of [neo4j_graphrag] that the writer receives:
    [Neo4jNode], [Neo4jRelationship] and [Neo4jGraph].  A [Neo4jNode] is
    validated when it is built (line 86), and the validator of its
    properties refuses the key [id], which is reserved for the id of the
    node: no node reaches [run] with [id] among its properties.  The last
    field records this. *)
Module Neo4jNode.
Record t : Type := Build
  { id : string;
    label : string;
    properties : option Dict;
    id_reserved : dict_mem (or_empty properties) "id" = false }.
End Neo4jNode.

Module Neo4jRelationship.
Record t : Type := Build
  { start_node_id : string;
    end_node_id : string;
    type : string;
    properties : option Dict }.
End Neo4jRelationship.

Module Neo4jGraph.
Record t : Type := Build
  { nodes : list Neo4jNode.t;
    relationships : list Neo4jRelationship.t }.
End Neo4jGraph.

(** [KGWriterModel]: a status and a metadata dictionary. *)
Inductive Status : Type := SUCCESS | FAILURE.

Module KGWriterModel.
Record t : Type := Build
  { status : Status;
    metadata : Dict }.
End KGWriterModel.

(** The three statements the writer sends.  The label and the relationship
    type are not parameters: [run] splices them into the text of the
    statement (lines 34-37 and 48). *)
Inductive Query : Type :=
| WipeAll
    (* MATCH (n) DETACH DELETE n *)
| MergeNode (label id : string) (props : Dict)
    (* MERGE (n:label {id: $id}) SET n += $props *)
| CreateRel (type start_id end_id : string) (props : Dict).
    (* MATCH (a {id: $start_id}), (b {id: $end_id})
       CREATE (a)-[r:type $props]->(b) *)

(** The driver as the writer uses it: [driver.execute_query] and
    [session.run], each of which either changes the database or raises. *)
Class Driver (D : Type) : Type :=
  { execute_query : Query -> D -> Exc D;
    session_run : Query -> D -> Exc D }.

(** *** The writer, over any driver *)

Section Writer.

Context {D : Type} `{Driver D}.

(** A method body: it reads and changes the database behind the driver
    and returns or raises. *)
Definition Action (A : Type) : Type := D -> Exc A * D.

Definition act_ret {A : Type} (a : A) : Action A := fun d => (Ok a, d).

Definition act_bind {A B : Type} (m : Action A) (k : A -> Action B) : Action B :=
  fun d =>
    match m d with
    | (Ok a, d') => k a d'
    | (Raise e, d') => (Raise e, d')
    end.

(** A call into the driver: a raising call leaves the database as it
    was before the call. *)
Definition call (op : D -> Exc D) : Action unit :=
  fun d =>
    match op d with
    | Ok d' => (Ok tt, d')
    | Raise e => (Raise e, d)
    end.

(** [for x in l: body(x)]. *)
Fixpoint for_each {A : Type} (body : A -> Action unit) (l : list A) : Action unit :=
  match l with
  | [] => act_ret tt
  | x :: l' => act_bind (body x) (fun _ => for_each body l')
  end.

(** [try: m  except Exception as e: handler(str(e))]. *)
Definition try_except {A : Type} (m : Action A) (handler : string -> Action A)
  : Action A :=
  fun d =>
    match m d with
    | (Ok a, d') => (Ok a, d')
    | (Raise e, d') => handler e d'
    end.

(** [_wipe_database]. *)
Definition _wipe_database : Action unit :=
  call (execute_query WipeAll).

(** Body of the first loop of [run]. *)
Definition write_node (node : Neo4jNode.t) : Action unit :=
  call (session_run
          (MergeNode (Neo4jNode.label node) (Neo4jNode.id node)
                     (or_empty (Neo4jNode.properties node)))).

(** Body of the second loop of [run]. *)
Definition write_relationship (rel : Neo4jRelationship.t) : Action unit :=
  call (session_run
          (CreateRel (Neo4jRelationship.type rel)
                     (Neo4jRelationship.start_node_id rel)
                     (Neo4jRelationship.end_node_id rel)
                     (or_empty (Neo4jRelationship.properties rel)))).

(** The two loops of [run], which is what a load is without its reset. *)
Definition write_graph (graph : Neo4jGraph.t) : Action unit :=
  act_bind (for_each write_node (Neo4jGraph.nodes graph)) (fun _ =>
  for_each write_relationship (Neo4jGraph.relationships graph)).

Definition success_model (graph : Neo4jGraph.t) : KGWriterModel.t :=
  KGWriterModel.Build SUCCESS
    [ ("node_count", PInt (Z.of_nat (length (Neo4jGraph.nodes graph))));
      ("relationship_count",
       PInt (Z.of_nat (length (Neo4jGraph.relationships graph)))) ].

Definition failure_model (e : string) : KGWriterModel.t :=
  KGWriterModel.Build FAILURE [ ("error", PStr e) ].

(** [Neo4jCreateWriter.run]. *)
Definition run (graph : Neo4jGraph.t) : Action KGWriterModel.t :=
  try_except
    (act_bind _wipe_database (fun _ =>
     act_bind (write_graph graph) (fun _ =>
     act_ret (success_model graph))))
    (fun e => act_ret (failure_model e)).

End Writer.

(** The queries of a load, in the order [run] sends them. *)
Definition node_query (node : Neo4jNode.t) : Query :=
  MergeNode (Neo4jNode.label node) (Neo4jNode.id node)
            (or_empty (Neo4jNode.properties node)).

Definition relationship_query (rel : Neo4jRelationship.t) : Query :=
  CreateRel (Neo4jRelationship.type rel)
            (Neo4jRelationship.start_node_id rel)
            (Neo4jRelationship.end_node_id rel)
            (or_empty (Neo4jRelationship.properties rel)).

Definition load_queries (graph : Neo4jGraph.t) : list Query :=
  WipeAll :: map node_query (Neo4jGraph.nodes graph)
          ++ map relationship_query (Neo4jGraph.relationships graph).

Definition is_node_write (q : Query) : bool :=
  match q with MergeNode _ _ _ => true | _ => false end.

Definition is_relationship_write (q : Query) : bool :=
  match q with CreateRel _ _ _ _ => true | _ => false end.

(** A list of queries sent one after the other, the wipe through
    [execute_query] and the writes through [session.run], up to the first
    one that raises. *)
Definition send `{Driver D} (q : Query) : D -> Exc D :=
  match q with
  | WipeAll => execute_query q
  | _ => session_run q
  end.

Definition send_all `{Driver D} (qs : list Query) : Action unit :=
  for_each (fun q => call (send q)) qs.

(** *** The property-graph store behind the queries

    The database is not part of the repository.  The definitions below
    give the three Cypher statements of [run] their meaning on a property
    graph: [MATCH (n) DETACH DELETE n] removes every node together with its
    relationships; [MERGE (n:label {id: $id})] binds every node that has
    the label and the id, or creates one when there is none, and
    [SET n += $props] then writes the properties into each; [MATCH (a {id:
    $start_id}), (b {id: $end_id})] binds every pair of nodes with these
    ids, and [CREATE] adds an edge for each pair, none when there is no
    pair.  This is the meaning of the statements when the label and the
    relationship type, which are spliced into the text, are plain names;
    [execute] below says what happens to a statement with any other
    name. *)

(** A stored node: its labels and its property map. *)
Module StoredNode.
Record t : Type := Build
  { labels : list string;
    props : gmap string PropertyValue }.
End StoredNode.

(** A stored edge; its endpoints are positions in the node list, which
    stand for the internal identities of the nodes. *)
Module StoredRel.
Record t : Type := Build
  { type : string;
    start : nat;
    end_ : nat;
    props : gmap string PropertyValue }.
End StoredRel.

Module Store.
Record t : Type := Build
  { nodes : list StoredNode.t;
    rels : list StoredRel.t }.
Definition empty : t := Build [] [].
End Store.

(** [SET n += $props]: every entry is written, except that a null value
    removes the key. *)
Definition set_plus (m : gmap string PropertyValue) (props : Dict)
  : gmap string PropertyValue :=
  fold_left
    (fun m kv =>
       match snd kv with
       | PNone => delete (fst kv) m
       | v => <[fst kv := v]> m
       end)
    props m.

(** The pattern [{id: $id}] on a stored node. *)
Definition has_id (id : string) (n : StoredNode.t) : bool :=
  match StoredNode.props n !! "id" with
  | Some (PStr s) => String.eqb s id
  | _ => false
  end.

(** The pattern [(n:label {id: $id})]. *)
Definition merge_matches (label id : string) (n : StoredNode.t) : bool :=
  bool_decide (label ∈ StoredNode.labels n) && has_id id n.

(** [MERGE (n:label {id: $id}) SET n += $props] for a label that is a
    plain name: every node matching the pattern is updated; without a
    match one node is created from the pattern and then updated. *)
Definition merge_node (label id : string) (props : Dict) (s : Store.t) : Store.t :=
  if existsb (merge_matches label id) (Store.nodes s)
  then
    Store.Build
      (map (fun n =>
              if merge_matches label id n
              then StoredNode.Build (StoredNode.labels n)
                                    (set_plus (StoredNode.props n) props)
              else n)
           (Store.nodes s))
      (Store.rels s)
  else
    Store.Build
      (Store.nodes s ++
         [ StoredNode.Build [label] (set_plus {[ "id" := PStr id ]} props) ])
      (Store.rels s).

(** The positions, from [i] on, of the nodes satisfying [p]. *)
Fixpoint positions (p : StoredNode.t -> bool) (i : nat) (l : list StoredNode.t)
  : list nat :=
  match l with
  | [] => []
  | n :: l' => if p n then i :: positions p (S i) l' else positions p (S i) l'
  end.

(** [MATCH (a {id: $start_id}), (b {id: $end_id}) CREATE (a)-[r:type
    $props]->(b)] for a type that is a plain name: one new edge for every
    pair of matching nodes. *)
Definition created_edges (type start_id end_id : string) (props : Dict)
  (nodes : list StoredNode.t) : list StoredRel.t :=
  let starts := positions (has_id start_id) 0 nodes in
  let ends := positions (has_id end_id) 0 nodes in
  flat_map
    (fun a => map (fun b => StoredRel.Build type a b (set_plus ∅ props)) ends)
    starts.

Definition create_rel (type start_id end_id : string) (props : Dict) (s : Store.t)
  : Store.t :=
  Store.Build
    (Store.nodes s)
    (Store.rels s ++ created_edges type start_id end_id props (Store.nodes s)).

(** The effect on the store of a query whose spliced name is a plain
    name. *)
Definition apply_query (q : Query) (s : Store.t) : Store.t :=
  match q with
  | WipeAll => Store.empty
  | MergeNode label id props => merge_node label id props s
  | CreateRel type start_id end_id props => create_rel type start_id end_id props s
  end.

(** *** The text of the statements

    [f":{node.label}"] and [{rel.type}] put the label and the type into
    the statement as they are, without quoting.  A plain name, a letter
    followed by letters, digits and underscores, is read back as that one
    name.  Nothing else is: [A:B] is read as the two labels [A] and [B],
    an empty name or two words leave a text that is no statement, and a
    name with brackets in it can close the pattern and start another
    clause. *)
Definition is_letter (c : ascii) : bool :=
  let n := nat_of_ascii c in
  Nat.leb 65 n && Nat.leb n 90 || Nat.leb 97 n && Nat.leb n 122.

Definition is_digit (c : ascii) : bool :=
  let n := nat_of_ascii c in Nat.leb 48 n && Nat.leb n 57.

Definition is_name_char (c : ascii) : bool :=
  is_letter c || is_digit c || Ascii.eqb c "_".

Fixpoint all_chars (p : ascii -> bool) (s : string) : bool :=
  match s with
  | EmptyString => true
  | String c s' => p c && all_chars p s'
  end.

Definition plain_name (s : string) : bool :=
  match s with
  | EmptyString => false
  | String c s' => is_letter c && all_chars is_name_char s'
  end.

(** [s.partition(" ")], when there is a space. *)
Fixpoint split_at_space (s : string) : option (string * string) :=
  match s with
  | EmptyString => None
  | String c s' =>
      if Ascii.eqb c " " then Some (EmptyString, s')
      else option_map (fun '(a, b) => (String c a, b)) (split_at_space s')
  end.

(** Names that leave a text the database refuses: no name at all, where
    the statement reads [(n: {id: $id})] or [[r: $props]], and two plain
    names with a space between them, where the second one stands in the
    place of the properties. *)
Definition unreadable_name (s : string) : bool :=
  match s with
  | EmptyString => true
  | _ =>
      match split_at_space s with
      | Some (a, b) => plain_name a && plain_name b
      | None => false
      end
  end.

(** The name a query splices into its text. *)
Definition spliced_name (q : Query) : option string :=
  match q with
  | WipeAll => None
  | MergeNode label _ _ => Some label
  | CreateRel type _ _ _ => Some type
  end.

Definition plain_query (q : Query) : bool :=
  match spliced_name q with
  | None => true
  | Some name => plain_name name
  end.

(** A database that is reachable: the store, and what the server makes of
    the statements whose meaning is not given above.  [beyond] is the
    effect of a statement whose spliced name is neither plain nor
    unreadable, whatever its text turns out to be; [complaint] is the text
    of the error for a statement that cannot be read. *)
Module Database.
Record t : Type := Build
  { store : Store.t;
    beyond : Query -> Store.t -> Exc Store.t;
    complaint : Query -> string }.
Definition with_store (db : t) (s : Store.t) : t :=
  Build s (beyond db) (complaint db).
End Database.

(** A statement as the database runs it. *)
Definition execute (q : Query) (db : Database.t) : Exc Database.t :=
  match spliced_name q with
  | None => Ok (Database.with_store db (apply_query q (Database.store db)))
  | Some name =>
      if plain_name name
      then Ok (Database.with_store db (apply_query q (Database.store db)))
      else if unreadable_name name
      then Raise (Database.complaint db q)
      else s' <-? Database.beyond db q (Database.store db) ;;
           Ok (Database.with_store db s')
  end.

#[global] Instance database_driver : Driver Database.t :=
  {| execute_query := execute;
     session_run := execute |}.

(** A driver that keeps, on top of another one, the list of the queries
    that went through. *)
#[global] Instance logged_driver {D : Type} `{Driver D} : Driver (D * list Query) :=
  {| execute_query q dl :=
       d' <-? execute_query q (fst dl) ;; Ok (d', snd dl ++ [q]);
     session_run q dl :=
       d' <-? session_run q (fst dl) ;; Ok (d', snd dl ++ [q]) |}.

(** A list of queries applied to the store one after the other. *)
Definition apply_all (qs : list Query) (s : Store.t) : Store.t :=
  fold_left (fun s q => apply_query q s) qs s.

(** The edges a relationship gives rise to over a list of stored nodes. *)
Definition edges_of (nodes : list StoredNode.t) (rel : Neo4jRelationship.t)
  : list StoredRel.t :=
  created_edges (Neo4jRelationship.type rel)
                (Neo4jRelationship.start_node_id rel)
                (Neo4jRelationship.end_node_id rel)
                (or_empty (Neo4jRelationship.properties rel))
                nodes.

(** The store once the reset and the node writes of a load are done. *)
Definition after_node_writes (graph : Neo4jGraph.t) : Store.t :=
  apply_all (map node_query (Neo4jGraph.nodes graph)) Store.empty.

(** What the patterns of the queries look at in a stored node: its labels
    and its [id] property. *)
Definition signature (n : StoredNode.t) : list string * option PropertyValue :=
  (StoredNode.labels n, StoredNode.props n !! "id").

(** The signature of the stored node a graph node is written to. *)
Definition node_signature (node : Neo4jNode.t) : list string * option PropertyValue :=
  ([Neo4jNode.label node], Some (PStr (Neo4jNode.id node))).

(** The nodes of a graph that carry a given id. *)
Definition nodes_with_id (x : string) (nodes : list Neo4jNode.t) : list Neo4jNode.t :=
  List.filter (fun n => String.eqb (Neo4jNode.id n) x) nodes.

(** What tells two nodes of a graph apart for the node statement. *)
Definition node_identity (node : Neo4jNode.t) : string * string :=
  (Neo4jNode.id node, Neo4jNode.label node).

(** A node whose properties do not assign the key [id]: every node, by
    the validator. *)
Definition keeps_id (node : Neo4jNode.t) : Prop :=
  dict_mem (or_empty (Neo4jNode.properties node)) "id" = false.

(** A graph whose labels and relationship types are all plain names. *)
Definition plain_graph (graph : Neo4jGraph.t) : Prop :=
  Forall (fun node => plain_name (Neo4jNode.label node) = true)
         (Neo4jGraph.nodes graph)
  /\ Forall (fun rel => plain_name (Neo4jRelationship.type rel) = true)
            (Neo4jGraph.relationships graph).

(** The patterns [{id: $id}] and [(n:label {id: $id})] on a signature. *)
Definition signature_has_id (id : string) (sg : list string * option PropertyValue)
  : bool :=
  match snd sg with
  | Some (PStr s) => String.eqb s id
  | _ => false
  end.

Definition signature_matches (label id : string)
  (sg : list string * option PropertyValue) : bool :=
  bool_decide (label ∈ fst sg) && signature_has_id id sg.

(** The queries that went through during a [run] on a database [d]. *)
Definition run_log {D : Type} `{Driver D} (graph : Neo4jGraph.t) (d : D) : list Query :=
  snd (snd (run graph (d, []))).

(** A connection that is lost after a number of statements: it serves
    [budget] calls of the driver below and raises from then on. *)
Module Flaky.
Record t (D : Type) : Type := Build
  { inner : D;
    budget : nat }.
Arguments Build {D} inner budget.
Arguments inner {D} _.
Arguments budget {D} _.
End Flaky.

Definition flaky_call {D : Type} (op : D -> Exc D) (f : Flaky.t D) : Exc (Flaky.t D) :=
  match Flaky.budget f with
  | O => Raise "ServiceUnavailable"
  | S b => d' <-? op (Flaky.inner f) ;; Ok (Flaky.Build d' b)
  end.

#[global] Instance flaky_driver {D : Type} `{Driver D} : Driver (Flaky.t D) :=
  {| execute_query q := flaky_call (execute_query q);
     session_run q := flaky_call (session_run q) |}.

(** The stored node that a node write creates. *)
Definition stored_of (node : Neo4jNode.t) : StoredNode.t :=
  StoredNode.Build
    [Neo4jNode.label node]
    (set_plus {[ "id" := PStr (Neo4jNode.id node) ]}
              (or_empty (Neo4jNode.properties node))).

(** The number of edges a relationship asks for in a graph: one for every
    pair of a node with its start id and a node with its end id. *)
Definition edge_demand (nodes : list Neo4jNode.t) (rel : Neo4jRelationship.t) : nat :=
  length (nodes_with_id (Neo4jRelationship.start_node_id rel) nodes)
  * length (nodes_with_id (Neo4jRelationship.end_node_id rel) nodes).

End Ingest.

(** ** Concrete graphs, episodes and responses *)

Module MergeExamples.

Import Prepare.

Definition tanjiro_en : Node.t :=
  Node.Build "N0" "human" (Some [("name", PStr "Tanjiro Kamado")]).
Definition tanjiro_ko : Node.t :=
  Node.Build "N0" "human" (Some [("name", PStr "카마도 탄지로")]).
Definition muzan : Node.t :=
  Node.Build "N13" "demon" (Some [("name", PStr "Muzan Kibutsuji")]).
Definition fights : Relationship.t :=
  Relationship.Build "FIGHTS" "N0" "N13" (Some [("episode_number", PStr "S1E01")]).

Definition episode1 : GraphResponse.t :=
  GraphResponse.Build [tanjiro_en; muzan] [fights].
Definition episode2 : GraphResponse.t :=
  GraphResponse.Build [tanjiro_ko; muzan; tanjiro_en] [fights].

End MergeExamples.

Module ProcessExamples.

Import Prepare.

Definition template : string := "NODES = [...]".

Definition pilot : Episode.t := Episode.Build 1 1 (Some "Tanjiro meets Giyu.").

Definition nezuko : Node.t :=
  Node.Build "N1" "인간" (Some [("name", PStr "Nezuko Kamado")]).
Definition bare : Node.t := Node.Build "N0" "인간" None.
Definition protects : Relationship.t := Relationship.Build "PROTECTS" "N0" "N1" None.

(** An extraction in which one node comes without properties. *)
Definition bare_response : GraphResponse.t :=
  GraphResponse.Build [nezuko; bare] [protects].
Definition bare_llm (prompt : string) : Exc GraphResponse.t := Ok bare_response.

(** An extraction in which every node has its properties. *)
Definition full_response : GraphResponse.t :=
  GraphResponse.Build
    [nezuko; Node.Build "N0" "인간" (Some [("name", PStr "Tanjiro"); ("age", PInt 13)])]
    [protects].
Definition full_llm (prompt : string) : Exc GraphResponse.t := Ok full_response.

End ProcessExamples.

Module IngestExamples.

Import Ingest.

Definition person : Neo4jNode.t :=
  Neo4jNode.Build "N0" "person" (Some [("name", PStr "A")]) eq_refl.
Definition demon : Neo4jNode.t :=
  Neo4jNode.Build "N13" "demon" (Some [("name", PStr "B")]) eq_refl.
Definition fights : Neo4jRelationship.t :=
  Neo4jRelationship.Build "N0" "N13" "FIGHTS" (Some [("episode_number", PStr "S1E01")]).

(** The scenario of the specification: two nodes and one relationship. *)
Definition scenario : Neo4jGraph.t := Neo4jGraph.Build [person; demon] [fights].



(** A graph with one id under two labels. *)
Definition twins : Neo4jGraph.t :=
  Neo4jGraph.Build
    [Neo4jNode.Build "A" "person" None eq_refl;
     Neo4jNode.Build "A" "demon" None eq_refl]
    [Neo4jRelationship.Build "A" "A" "KNOWS" None].

(** A reachable database that holds nothing, and one that holds the
    scenario under other ids. *)
Definition fresh : Database.t :=
  Database.Build Store.empty
                 (fun _ _ => Raise "Neo.ClientError.Statement.SyntaxError")
                 (fun _ => "Neo.ClientError.Statement.SyntaxError").

Definition used : Database.t :=
  Database.with_store fresh
    (apply_all
       [ MergeNode "person" "N7" [("name", PStr "C")];
         MergeNode "demon" "N8" [];
         CreateRel "FIGHTS" "N7" "N8" [] ]
       Store.empty).

End IngestExamples.

Module MoreExamples.

Import Prepare.

(** An episode that has no synopsis. *)
Definition silent : Episode.t := Episode.Build 1 2 None.

(** A language model that is out of reach. *)
Definition failing_llm (prompt : string) : Exc GraphResponse.t := Raise "timeout".

(** A language model that answers the prompt of [pilot] only. *)
Definition picky_llm (prompt : string) : Exc GraphResponse.t :=
  if String.eqb prompt (prompt_for ProcessExamples.template "Tanjiro meets Giyu.")
  then Ok ProcessExamples.full_response
  else Raise "unknown prompt".

(** What the processing makes of [full_response] for [pilot]. *)
Definition nezuko_ko : Node.t :=
  Node.Build "N1" "인간" (Some [("name", PStr "카마도 네즈코")]).
Definition tanjiro : Node.t :=
  Node.Build "N0" "인간" (Some [("name", PStr "Tanjiro"); ("age", PInt 13)]).
Definition protects_tagged : Relationship.t :=
  Relationship.Build "PROTECTS" "N0" "N1" (Some [("episode_number", PStr "S1E01")]).
Definition full_processed : GraphResponse.t :=
  GraphResponse.Build [nezuko_ko; tanjiro] [protects_tagged].

(** Three rows of an episode table: with a summary, without a summary
    row, with a summary row that has no summary cell. *)
Definition rows : list Row :=
  [ SummaryRow (Some "Tanjiro meets Giyu."); NoSummaryRow; SummaryRow None ].

(** A site on which one page is missing. *)
Definition patchy_fetch (link : string) : Exc (list Episode.t) :=
  if String.eqb link "season_9" then Raise "404"
  else Ok [ProcessExamples.pilot].

(** Files as the list of what was saved. *)
Definition saving (episodes : list Episode.t) (final_graph : GraphResponse.t)
  (fs : list (list Episode.t * GraphResponse.t))
  : Exc unit * list (list Episode.t * GraphResponse.t) :=
  (Ok tt, (episodes, final_graph) :: fs).

(** A graph that lists a node twice. *)
Definition repeated : Ingest.Neo4jGraph.t :=
  Ingest.Neo4jGraph.Build
    [IngestExamples.person; IngestExamples.person; IngestExamples.demon]
    [IngestExamples.fights].

End MoreExamples.

(** * Properties of the merge *)

(** Membership of an element in a list that is written out. *)
Ltac in_list := apply list_elem_of_In; simpl; auto 10.

Section MergeFacts.

Variable py_str : option Dict -> string.

Abbreviation key := (Prepare.node_key py_str).
Abbreviation combine := (Prepare.combine_chunk_graphs py_str).
Abbreviation kept := (keep_first py_str).

Lemma append_loop {A : Type} (l acc : list A) :
  fold_left (fun acc x => acc ++ [x]) l acc = acc ++ l.
Proof.
  revert acc. induction l as [|x l IH]; intros acc; simpl.
  - by rewrite app_nil_r.
  - rewrite IH. by rewrite <- app_assoc.
Qed.

Lemma nested_append_loop {A B : Type} (f : A -> list B) (gs : list A) (acc : list B) :
  fold_left (fun acc g => fold_left (fun acc x => acc ++ [x]) (f g) acc) gs acc
  = acc ++ concat (map f gs).
Proof.
  revert acc. induction gs as [|g gs IH]; intros acc; simpl.
  - by rewrite app_nil_r.
  - rewrite IH, append_loop. by rewrite <- app_assoc.
Qed.

Lemma collect_nodes_concat gs : Prepare.collect_nodes gs = all_nodes_of gs.
Proof. unfold Prepare.collect_nodes. by rewrite nested_append_loop. Qed.

Lemma collect_relationships_concat gs :
  Prepare.collect_relationships gs = all_relationships_of gs.
Proof. unfold Prepare.collect_relationships. by rewrite nested_append_loop. Qed.

(** The loop invariant of step 3: [seen] holds the keys of the nodes
    visited so far. *)
Lemma dedup_from_keep_first l :
  forall before unique_nodes (seen : gset Prepare.NodeKey),
    (forall k, k ∈ seen <-> k ∈ map key before) ->
    fst (Prepare.dedup_from py_str (unique_nodes, seen) l)
    = unique_nodes ++ kept before l.
Proof.
  induction l as [|node l IH]; intros before unique_nodes seen Hseen; simpl.
  - by rewrite app_nil_r.
  - unfold Prepare.dedup_from in *. simpl.
    destruct (decide (key node ∈ seen)) as [Hin|Hout].
    + destruct (decide (key node ∈ map key before)) as [_|Hno].
      * apply IH. intros k. rewrite Hseen, map_app, elem_of_app. simpl.
        rewrite list_elem_of_singleton. split; [tauto|].
        intros [?| ->]; [done|]. by apply Hseen.
      * exfalso. apply Hno. by apply Hseen.
    + destruct (decide (key node ∈ map key before)) as [Hyes|_].
      * exfalso. apply Hout. by apply Hseen.
      * rewrite (IH (before ++ [node])).
        -- by rewrite <- app_assoc.
        -- intros k. rewrite elem_of_union, elem_of_singleton, Hseen.
           rewrite map_app, elem_of_app. simpl.
           by rewrite list_elem_of_singleton.
Qed.

Lemma combine_nodes gs :
  Prepare.GraphResponse.nodes (combine gs) = kept [] (all_nodes_of gs).
Proof.
  unfold Prepare.combine_chunk_graphs.
  rewrite collect_nodes_concat.
  pose proof (dedup_from_keep_first (all_nodes_of gs) [] [] ∅) as Hloop.
  destruct (Prepare.dedup_from py_str ([], ∅) (all_nodes_of gs)) as [u seen].
  simpl in *. apply Hloop. intros k. simpl. set_solver.
Qed.

Lemma combine_relationships gs :
  Prepare.GraphResponse.relationships (combine gs) = all_relationships_of gs.
Proof.
  unfold Prepare.combine_chunk_graphs.
  rewrite collect_relationships_concat.
  by destruct (Prepare.dedup_from py_str ([], ∅) (Prepare.collect_nodes gs)).
Qed.

Lemma keep_first_app before l1 l2 :
  kept before (l1 ++ l2)
  = kept before l1 ++ kept (before ++ l1) l2.
Proof.
  revert before. induction l1 as [|x l1 IH]; intros before; simpl.
  - by rewrite app_nil_r.
  - rewrite IH. rewrite <- !app_assoc. simpl. done.
Qed.

(** A node is kept exactly at a position where its key has not occurred
    before. *)
Lemma elem_of_keep_first l :
  forall before x,
    x ∈ kept before l <->
    exists pre suf, l = pre ++ x :: suf /\ key x ∉ map key (before ++ pre).
Proof.
  induction l as [|n l IH]; intros before x; simpl.
  - split.
    + by intros ?%elem_of_nil.
    + intros (pre & suf & Heq & _). by destruct pre.
  - rewrite elem_of_app, IH. split.
    + intros [Hhead | (pre & suf & -> & Hfresh)].
      * destruct (decide (key n ∈ map key before)) as [|Hfresh].
        -- by apply elem_of_nil in Hhead.
        -- apply list_elem_of_singleton in Hhead as ->.
           exists [], l. by rewrite app_nil_r.
      * exists (n :: pre), suf. split; [done|].
        by rewrite <- app_assoc in Hfresh.
    + intros (pre & suf & Heq & Hfresh). destruct pre as [|n' pre].
      * simpl in Heq. injection Heq as -> ->. left.
        rewrite app_nil_r in Hfresh.
        destruct (decide (key x ∈ map key before)); [done|].
        by apply list_elem_of_singleton.
      * simpl in Heq. injection Heq as -> ->. right.
        exists pre, suf. split; [done|]. by rewrite <- app_assoc.
Qed.

Lemma keep_first_fresh before l x :
  x ∈ kept before l -> key x ∉ map key before.
Proof.
  intros (pre & suf & _ & Hfresh)%elem_of_keep_first.
  rewrite map_app, elem_of_app in Hfresh. tauto.
Qed.

Lemma keep_first_keys_NoDup l :
  forall before, NoDup (map key (kept before l)).
Proof.
  induction l as [|n l IH]; intros before; simpl.
  - constructor.
  - destruct (decide (key n ∈ map key before)); simpl; [apply IH|].
    constructor; [|apply IH].
    intros (m & Hkey & Hm)%list_elem_of_fmap.
    apply keep_first_fresh in Hm. apply Hm.
    rewrite map_app, elem_of_app. right. simpl.
    rewrite <- Hkey. by apply list_elem_of_singleton.
Qed.

(** Every key of a list has a first occurrence. *)
Lemma first_occurrence l :
  forall k, k ∈ map key l ->
    exists pre x suf, l = pre ++ x :: suf /\ key x = k /\ k ∉ map key pre.
Proof.
  induction l as [|n l IH]; intros k Hk; simpl in Hk.
  - by apply elem_of_nil in Hk.
  - destruct (decide (key n = k)) as [Heq|Hne].
    + exists [], n, l. split; [done|]. split; [done|]. simpl. apply not_elem_of_nil.
    + apply elem_of_cons in Hk as [Hk|Hk]; [congruence|].
      destruct (IH k Hk) as (pre & x & suf & -> & Hx & Hfresh).
      exists (n :: pre), x, suf. split; [done|]. split; [done|].
      simpl. rewrite not_elem_of_cons. split; [congruence|done].
Qed.

Lemma keep_first_represents l k :
  k ∈ map key l -> exists m, m ∈ kept [] l /\ key m = k.
Proof.
  intros (pre & x & suf & -> & Hx & Hfresh)%first_occurrence.
  exists x. split; [|done].
  apply elem_of_keep_first. exists pre, suf. simpl. by rewrite Hx.
Qed.

(** Only the keys of [before] matter, and they act as a filter. *)
Lemma keep_first_filter l :
  forall before seen,
    kept (before ++ seen) l
    = filter (fun n => key n ∉ map key before) (kept seen l).
Proof.
  induction l as [|n l IH]; intros before seen; simpl; [done|].
  rewrite filter_app, <- IH, <- app_assoc. f_equal.
  destruct (decide (key n ∈ map key (before ++ seen))) as [Hin|Hout];
    destruct (decide (key n ∈ map key seen)) as [Hin'|Hout']; simpl; try done.
  - rewrite filter_cons. destruct (decide (key n ∉ map key before)) as [Hf|Hf]; [|done].
    exfalso. rewrite map_app, elem_of_app in Hin. tauto.
  - exfalso. apply Hout. rewrite map_app, elem_of_app. tauto.
  - rewrite filter_cons. destruct (decide (key n ∉ map key before)) as [Hf|Hf]; [done|].
    exfalso. apply Hout. rewrite map_app, elem_of_app. left.
    by destruct (decide (key n ∈ map key before)).
Qed.

Lemma keep_first_all_seen l :
  forall before, (forall x, x ∈ l -> key x ∈ map key before) ->
    kept before l = [].
Proof.
  induction l as [|n l IH]; intros before Hall; simpl; [done|].
  destruct (decide (key n ∈ map key before)) as [_|Hout].
  - simpl. apply IH. intros x Hx. rewrite map_app, elem_of_app. left.
    apply Hall. by right.
  - exfalso. apply Hout, Hall. by left.
Qed.

(** The nodes kept stand in the order of the input. *)
Lemma keep_first_sublist l :
  forall before, sublist (kept before l) l.
Proof.
  induction l as [|n l IH]; intros before; simpl; [constructor|].
  destruct (decide (key n ∈ map key before)); simpl.
  - apply sublist_cons, IH.
  - apply sublist_skip, IH.
Qed.


(** C6: for the inputs [G1; G2] the merged nodes are the unique nodes of
    G1 in order followed by the unique nodes of G2 whose key does not occur
    in G1, in order, so that they stand as in the input; the merged
    relationships are those of G1 followed by those of G2, none removed and
    none checked. *)
Theorem combine_pair_order (G1 G2 : Prepare.GraphResponse.t) :
  Prepare.GraphResponse.nodes (combine [G1; G2])
  = kept [] (Prepare.GraphResponse.nodes G1)
    ++ filter (fun n => key n ∉ map key (Prepare.GraphResponse.nodes G1))
              (kept [] (Prepare.GraphResponse.nodes G2))
  /\ sublist (Prepare.GraphResponse.nodes (combine [G1; G2]))
             (Prepare.GraphResponse.nodes G1 ++ Prepare.GraphResponse.nodes G2)
  /\ Prepare.GraphResponse.relationships (combine [G1; G2])
     = Prepare.GraphResponse.relationships G1
       ++ Prepare.GraphResponse.relationships G2.
Proof.
  rewrite combine_nodes, combine_relationships.
  unfold all_nodes_of, all_relationships_of. simpl. rewrite !app_nil_r.
  split; [|split; [apply keep_first_sublist|done]].
  rewrite keep_first_app. f_equal. simpl.
  rewrite <- (app_nil_r (Prepare.GraphResponse.nodes G1)) at 1.
  apply keep_first_filter.
Qed.

(** C7: merging [G; G] gives the node sequence of merging [G] alone and
    twice as many relationships as G has. *)
Theorem combine_twice (G : Prepare.GraphResponse.t) :
  Prepare.GraphResponse.nodes (combine [G; G])
  = Prepare.GraphResponse.nodes (combine [G])
  /\ length (Prepare.GraphResponse.relationships (combine [G; G]))
     = 2 * length (Prepare.GraphResponse.relationships G).
Proof.
  rewrite !combine_nodes, combine_relationships.
  unfold all_nodes_of, all_relationships_of. simpl. rewrite !app_nil_r.
  split.
  - rewrite keep_first_app. simpl.
    rewrite (keep_first_all_seen _ (Prepare.GraphResponse.nodes G)).
    + by rewrite app_nil_r.
    + intros x Hx. apply list_elem_of_fmap. by exists x.
  - rewrite length_app. lia.
Qed.

(** C8: the merge never fails.  On every sequence of graphs it returns the
    graph of the first occurrences of the nodes and of all the
    relationships, and on the empty sequence that graph has no node and no
    relationship. *)
Theorem combine_total (gs : list Prepare.GraphResponse.t) :
  combine gs
  = Prepare.GraphResponse.Build (kept [] (all_nodes_of gs))
                                (all_relationships_of gs)
  /\ combine [] = Prepare.GraphResponse.Build [] [].
Proof.
  split; [|reflexivity].
  rewrite <- combine_nodes, <- combine_relationships.
  by destruct (combine gs).
Qed.

End MergeFacts.

(** Two episodes that share a node under its English and Korean names. *)
Example combine_episodes :
  Prepare.combine_chunk_graphs Prepare.str_plain
    [MergeExamples.episode1; MergeExamples.episode2]
  = Prepare.GraphResponse.Build
      [MergeExamples.tanjiro_en; MergeExamples.muzan; MergeExamples.tanjiro_ko]
      [MergeExamples.fights; MergeExamples.fights].
Proof. vm_compute. reflexivity. Qed.


(** * Properties of the per-episode post-processing *)

Lemma dict_get_set_same (d : Dict) k v default :
  dict_get (dict_set d k v) k default = v.
Proof.
  induction d as [|[k' v'] d IH]; simpl.
  - by rewrite String.eqb_refl.
  - destruct (String.eqb k' k) eqn:Hk; simpl; rewrite Hk; [done|apply IH].
Qed.

Lemma dict_get_set_other (d : Dict) k k' v default :
  k <> k' -> dict_get (dict_set d k v) k' default = dict_get d k' default.
Proof.
  intros Hne. induction d as [|[k0 v0] d IH]; simpl.
  - destruct (String.eqb k k') eqn:Hk; [|done].
    by apply String.eqb_eq in Hk.
  - destruct (String.eqb k0 k) eqn:Hk; simpl.
    + apply String.eqb_eq in Hk as ->.
      destruct (String.eqb k k') eqn:Hk'; [|done].
      by apply String.eqb_eq in Hk'.
    + by rewrite IH.
Qed.

(** Assigning to a key that is present keeps the keys and their order. *)
Lemma dict_keys_set_present (d : Dict) k v :
  dict_mem d k = true -> dict_keys (dict_set d k v) = dict_keys d.
Proof.
  unfold dict_keys. induction d as [|[k' v'] d IH]; simpl; [done|].
  destruct (String.eqb k' k) eqn:Hk; simpl; [done|].
  intros Hmem. by rewrite IH.
Qed.

(** X22: what the loop (3) does to a node that has a properties
    dictionary: a name that is a key of [KOREAN_NODE_MAP] is replaced by
    the value under it, nothing else changes, and any other node is left
    as it is. *)
Lemma localize_node_present (node : Prepare.Node.t) (d : Dict) :
  Prepare.Node.properties node = Some d ->
  (forall s korean,
      dict_get d "name" (PStr "") = PStr s ->
      Prepare.KOREAN_NODE_MAP !! s = Some korean ->
      exists d',
        Prepare.localize_node node
        = Ok (Prepare.Node.Build (Prepare.Node.id node) (Prepare.Node.label node)
                                 (Some d'))
        /\ dict_get d' "name" (PStr "") = PStr korean
        /\ (forall k default, k <> "name" -> dict_get d' k default = dict_get d k default)
        /\ dict_keys d' = dict_keys d)
  /\ ((forall s, dict_get d "name" (PStr "") = PStr s ->
                 Prepare.KOREAN_NODE_MAP !! s = None) ->
      Prepare.localize_node node = Ok node).
Proof.
  intros Hd. unfold Prepare.localize_node. rewrite Hd. split.
  - intros s korean Hname Hmap. unfold Prepare.korean_name.
    rewrite Hname, Hmap. eexists. split; [reflexivity|].
    split; [apply dict_get_set_same|]. split.
    + intros k default Hk. apply dict_get_set_other. congruence.
    + apply dict_keys_set_present.
      assert (Hne : s <> "").
      { intros ->. vm_compute in Hmap. discriminate. }
      clear Hd Hmap. induction d as [|[k' v'] d IH]; simpl in *.
      * congruence.
      * destruct (String.eqb k' "name"); [done|auto].
  - intros Hno. unfold Prepare.korean_name.
    destruct (dict_get d "name" (PStr "")) eqn:Hname; try done.
    by rewrite (Hno s).
Qed.

Lemma localize_nodes_raise (nodes : list Prepare.Node.t) :
  (exists node, node ∈ nodes /\ Prepare.Node.properties node = None) ->
  exc_map Prepare.localize_node nodes
  = Raise "'NoneType' object has no attribute 'get'".
Proof.
  intros (node & Hin & Hnone).
  induction nodes as [|n nodes IH]; [by apply elem_of_nil in Hin|].
  simpl. unfold Prepare.localize_node at 1.
  destruct (Prepare.Node.properties n) as [d|] eqn:Hn; [|done].
  apply elem_of_cons in Hin as [->|Hin]; [congruence|].
  destruct (Prepare.korean_name _); simpl; by rewrite (IH Hin).
Qed.

Section ProcessFacts.

Variable py_str : option Dict -> string.
Variable UPDATED_TEMPLATE : string.
Variable llm_call_structured : string -> Exc Prepare.GraphResponse.t.

Abbreviation process_episode :=
  (Prepare.process_episode UPDATED_TEMPLATE llm_call_structured).
Abbreviation process_step :=
  (Prepare.process_step UPDATED_TEMPLATE llm_call_structured).
Abbreviation process_chunks :=
  (Prepare.process_chunks UPDATED_TEMPLATE llm_call_structured).
Abbreviation process_data :=
  (Prepare.process_data py_str UPDATED_TEMPLATE llm_call_structured).

Lemma process_chunks_from (episodes : list Prepare.Episode.t) :
  forall chunk_graphs,
    fold_left process_step episodes chunk_graphs
    = chunk_graphs ++ process_chunks episodes.
Proof.
  unfold Prepare.process_chunks.
  induction episodes as [|e episodes IH]; intros chunk_graphs; simpl.
  - by rewrite app_nil_r.
  - rewrite IH. rewrite (IH (process_step [] e)). rewrite app_assoc. f_equal.
    unfold Prepare.process_step.
    destruct (Prepare.synopsis_missing e); [by rewrite app_nil_r|].
    destruct (Prepare.process_episode _ _ _ _); simpl; by rewrite ?app_nil_r.
Qed.

Lemma process_chunks_app (before after : list Prepare.Episode.t) :
  process_chunks (before ++ after) = process_chunks before ++ process_chunks after.
Proof.
  unfold Prepare.process_chunks at 1. rewrite fold_left_app.
  apply process_chunks_from.
Qed.

(** C10: when the response extracted for an episode holds a node whose
    properties are [None], reading the name raises, and the episode
    contributes nothing: the list of chunk graphs, and so the merged graph,
    is the one obtained without that episode, whatever the other nodes and
    relationships of the response are. *)
Theorem none_properties_skips_chunk
  (episode : Prepare.Episode.t) (synopsis : string)
  (graph_response : Prepare.GraphResponse.t) :
  Prepare.Episode.synopsis episode = Some synopsis ->
  synopsis <> "" ->
  llm_call_structured (Prepare.prompt_for UPDATED_TEMPLATE synopsis)
  = Ok graph_response ->
  (exists node, node ∈ Prepare.GraphResponse.nodes graph_response
                /\ Prepare.Node.properties node = None) ->
  process_episode episode synopsis
  = Raise "'NoneType' object has no attribute 'get'"
  /\ forall before after,
      process_chunks (before ++ episode :: after) = process_chunks (before ++ after)
      /\ process_data (before ++ episode :: after) = process_data (before ++ after).
Proof.
  intros Hsyn Hnonempty Hllm Hnone.
  assert (Hraise : process_episode episode synopsis
                   = Raise "'NoneType' object has no attribute 'get'").
  { unfold Prepare.process_episode. rewrite Hllm. simpl.
    by rewrite (localize_nodes_raise _ Hnone). }
  split; [exact Hraise|].
  assert (Hskip : forall before after,
             process_chunks (before ++ episode :: after)
             = process_chunks (before ++ after)).
  { intros before after.
    rewrite !process_chunks_app. f_equal.
    change (episode :: after) with ([episode] ++ after).
    rewrite process_chunks_app.
    replace (process_chunks [episode]) with (@nil Prepare.GraphResponse.t); [done|].
    unfold Prepare.process_chunks, Prepare.process_step, Prepare.synopsis_missing.
    simpl. rewrite Hsyn. simpl.
    destruct (String.eqb synopsis "") eqn:Heq.
    - by apply String.eqb_eq in Heq.
    - by rewrite Hraise. }
  intros before after. split; [apply Hskip|].
  unfold Prepare.process_data. by rewrite Hskip.
Qed.

End ProcessFacts.

(** A response whose nodes all have properties: the name that is in the
    table is replaced, the other node and its extra property are kept, and
    the relationship is tagged with the episode number. *)
Example process_full_response :
  Prepare.process_chunks ProcessExamples.template ProcessExamples.full_llm
    [ProcessExamples.pilot]
  = [ Prepare.GraphResponse.Build
        [ Prepare.Node.Build "N1" "인간" (Some [("name", PStr "카마도 네즈코")]);
          Prepare.Node.Build "N0" "인간"
            (Some [("name", PStr "Tanjiro"); ("age", PInt 13)]) ]
        [ Prepare.Relationship.Build "PROTECTS" "N0" "N1"
            (Some [("episode_number", PStr "S1E01")]) ] ].
Proof. vm_compute. reflexivity. Qed.

(** C9, at a node without properties: the node does not pass through.
    Reading its name raises, and the episode's whole response, the
    well-formed node and the relationship included, is left out. *)
Theorem localize_none_properties :
  Prepare.localize_node ProcessExamples.bare
  = Raise "'NoneType' object has no attribute 'get'"
  /\ Prepare.process_chunks ProcessExamples.template ProcessExamples.bare_llm
       [ProcessExamples.pilot] = []
  /\ Prepare.process_data Prepare.str_plain ProcessExamples.template
       ProcessExamples.bare_llm [ProcessExamples.pilot]
     = Raise "그래프를 성공적으로 추출하지 못했습니다.".
Proof. repeat split; vm_compute; reflexivity. Qed.

(** The episode whose response holds the node without properties leaves
    no trace, wherever it stands among the episodes. *)
Lemma none_properties_skips_chunk_witness :
  Prepare.process_episode ProcessExamples.template ProcessExamples.bare_llm
    ProcessExamples.pilot "Tanjiro meets Giyu."
  = Raise "'NoneType' object has no attribute 'get'"
  /\ forall before after,
      Prepare.process_chunks ProcessExamples.template ProcessExamples.bare_llm
        (before ++ ProcessExamples.pilot :: after)
      = Prepare.process_chunks ProcessExamples.template ProcessExamples.bare_llm
          (before ++ after)
      /\ Prepare.process_data Prepare.str_plain ProcessExamples.template
           ProcessExamples.bare_llm (before ++ ProcessExamples.pilot :: after)
         = Prepare.process_data Prepare.str_plain ProcessExamples.template
             ProcessExamples.bare_llm (before ++ after).
Proof.
  apply (none_properties_skips_chunk Prepare.str_plain ProcessExamples.template
           ProcessExamples.bare_llm ProcessExamples.pilot "Tanjiro meets Giyu."
           ProcessExamples.bare_response).
  - reflexivity.
  - discriminate.
  - reflexivity.
  - exists ProcessExamples.bare. split; [|reflexivity].
    in_list.
Defined.

(** * Properties of the writer, over any driver *)

Lemma act_bind_eq {D A B : Type}
  (m : Ingest.Action A) (k : A -> Ingest.Action B) (d : D) :
  Ingest.act_bind m k d
  = match m d with
    | (Ok a, d') => k a d'
    | (Raise e, d') => (Raise e, d')
    end.
Proof. reflexivity. Qed.

Lemma call_eq {D : Type} (op : D -> Exc D) (d : D) :
  Ingest.call op d
  = match op d with
    | Ok d' => (Ok tt, d')
    | Raise e => (Raise e, d)
    end.
Proof. reflexivity. Qed.

Lemma for_each_app {D A : Type} (body : A -> Ingest.Action unit) (l1 l2 : list A) (d : D) :
  Ingest.for_each body (l1 ++ l2) d
  = Ingest.act_bind (Ingest.for_each body l1) (fun _ => Ingest.for_each body l2) d.
Proof.
  revert d. induction l1 as [|x l1 IH]; intros d; simpl; [done|].
  unfold Ingest.act_bind in *. destruct (body x d) as [[[]|e] d']; [|done].
  apply IH.
Qed.

Lemma for_each_map {D A B : Type} (f : A -> B) (body : B -> Ingest.Action unit)
  (l : list A) (d : D) :
  Ingest.for_each body (map f l) d = Ingest.for_each (fun x => body (f x)) l d.
Proof.
  revert d. induction l as [|x l IH]; intros d; simpl; [done|].
  unfold Ingest.act_bind. destruct (body (f x) d) as [[[]|e] d']; [|done].
  apply IH.
Qed.

Section WriterFacts.

Context {D : Type} `{Ingest.Driver D}.

(** [run] sends the queries of [load_queries] in order and turns the
    outcome into a [KGWriterModel]. *)
Lemma run_as_queries (graph : Ingest.Neo4jGraph.t) (d : D) :
  Ingest.run graph d
  = match Ingest.send_all (Ingest.load_queries graph) d with
    | (Ok _, d') => (Ok (Ingest.success_model graph), d')
    | (Raise e, d') => (Ok (Ingest.failure_model e), d')
    end.
Proof.
  unfold Ingest.run, Ingest.try_except, Ingest.send_all, Ingest.load_queries.
  simpl. unfold Ingest._wipe_database. rewrite !act_bind_eq.
  destruct (Ingest.call (Ingest.execute_query Ingest.WipeAll) d) as [[[]|e] d1];
    [|done].
  rewrite for_each_app, !act_bind_eq. unfold Ingest.write_graph.
  rewrite !for_each_map, act_bind_eq.
  change (fun x => Ingest.call (Ingest.send (Ingest.node_query x)))
    with Ingest.write_node.
  destruct (Ingest.for_each Ingest.write_node _ d1) as [[[]|e] d2]; [|done].
  rewrite for_each_map.
  change (fun x => Ingest.call (Ingest.send (Ingest.relationship_query x)))
    with Ingest.write_relationship.
  by destruct (Ingest.for_each Ingest.write_relationship _ d2) as [[[]|e] d3].
Qed.

(** Sending stops at the first query that raises, with everything sent
    before it applied. *)
Lemma send_all_stops (applied pending : list Ingest.Query) (q : Ingest.Query)
  (d d_mid : D) (e : string) :
  Ingest.send_all applied d = (Ok tt, d_mid) ->
  Ingest.send q d_mid = Raise e ->
  Ingest.send_all (applied ++ q :: pending) d = (Raise e, d_mid).
Proof.
  intros Happlied Hq. unfold Ingest.send_all in *.
  rewrite for_each_app. unfold Ingest.act_bind at 1. rewrite Happlied.
  simpl. unfold Ingest.act_bind, Ingest.call. by rewrite Hq.
Qed.

(** C5: an exception raised by the reset, by a node write or by a
    relationship write is not propagated.  [run] returns a result with
    status FAILURE whose metadata holds the text of the exception, and the
    database is left as the queries sent before the failing one made it:
    nothing is rolled back. *)
Theorem run_failure_keeps_partial_writes
  (graph : Ingest.Neo4jGraph.t) (d d_mid : D)
  (applied pending : list Ingest.Query) (q : Ingest.Query) (e : string) :
  Ingest.load_queries graph = applied ++ q :: pending ->
  Ingest.send_all applied d = (Ok tt, d_mid) ->
  Ingest.send q d_mid = Raise e ->
  Ingest.run graph d
  = (Ok (Ingest.KGWriterModel.Build Ingest.FAILURE [("error", PStr e)]), d_mid).
Proof.
  intros Hsplit Happlied Hq.
  rewrite run_as_queries, Hsplit.
  by rewrite (send_all_stops applied pending q d d_mid e).
Qed.

(** [run] itself never raises. *)
Lemma run_returns (graph : Ingest.Neo4jGraph.t) (d : D) :
  exists model d', Ingest.run graph d = (Ok model, d').
Proof.
  rewrite run_as_queries.
  destruct (Ingest.send_all _ d) as [[[]|e] d']; eauto.
Qed.

End WriterFacts.

Section WriterOrder.

Context {D : Type} `{Ingest.Driver D}.

Lemma send_logged (q : Ingest.Query) (d : D) (log : list Ingest.Query) :
  Ingest.send q (d, log) = (d' <-? Ingest.send q d ;; Ok (d', log ++ [q])).
Proof. by destruct q. Qed.

(** The log grows by the queries that succeeded, in the order sent. *)
Lemma send_all_log (qs : list Ingest.Query) :
  forall (d : D) (log : list Ingest.Query),
  exists sent rest,
    qs = sent ++ rest
    /\ snd (snd (Ingest.send_all qs (d, log))) = log ++ sent
    /\ (forall u, fst (Ingest.send_all qs (d, log)) = Ok u -> rest = []).
Proof.
  induction qs as [|q qs IH]; intros d log.
  - exists [], []. simpl. by rewrite app_nil_r.
  - unfold Ingest.send_all in *. simpl. rewrite act_bind_eq.
    rewrite call_eq, send_logged.
    destruct (Ingest.send q d) as [d1|e]; simpl.
    + destruct (IH d1 (log ++ [q])) as (sent & rest & -> & Hlog & Hok).
      exists (q :: sent), rest. split; [done|]. split; [|done].
      rewrite Hlog. by rewrite <- app_assoc.
    + exists [], (q :: qs). split; [done|]. split; [by rewrite app_nil_r|].
      intros u Hu. discriminate.
Qed.

Lemma writes_split (N R before tail : list Ingest.Query) (q : Ingest.Query) :
  Forall (fun x => Ingest.is_node_write x = true) N ->
  Ingest.is_relationship_write q = true ->
  before ++ q :: tail = N ++ R ->
  exists rels_before, before = N ++ rels_before /\ R = rels_before ++ q :: tail.
Proof.
  intros HN Hq. revert before. induction HN as [|n N Hn HN IH]; intros before Heq.
  - exists before. by simpl in *.
  - destruct before as [|b before]; simpl in Heq.
    + injection Heq as -> _. by destruct n.
    + injection Heq as -> Heq. destruct (IH _ Heq) as (rb & -> & ->).
      by exists rb.
Qed.

(** What went through is a prefix of the queries of the load and, on
    SUCCESS, all of them; a node write is preceded by the reset; a
    relationship write is preceded by the reset and by every node write,
    and followed by relationship writes only. *)
Lemma run_log_order (graph : Ingest.Neo4jGraph.t) (d : D) :
  (exists rest, Ingest.load_queries graph = Ingest.run_log graph d ++ rest)
  /\ (forall model d',
        Ingest.run graph (d, []) = (Ok model, d') ->
        Ingest.KGWriterModel.status model = Ingest.SUCCESS ->
        Ingest.run_log graph d = Ingest.load_queries graph)
  /\ (forall before q after,
        Ingest.run_log graph d = before ++ q :: after ->
        Ingest.is_node_write q = true ->
        exists before', before = Ingest.WipeAll :: before')
  /\ (forall before q after,
        Ingest.run_log graph d = before ++ q :: after ->
        Ingest.is_relationship_write q = true ->
        (exists rels_before,
            before = Ingest.WipeAll
                       :: map Ingest.node_query (Ingest.Neo4jGraph.nodes graph)
                       ++ rels_before)
        /\ Forall (fun q' => Ingest.is_relationship_write q' = true) after).
Proof.
  unfold Ingest.run_log. rewrite run_as_queries.
  destruct (send_all_log (Ingest.load_queries graph) d [])
    as (sent & rest & Hsplit & Hlog & Hok).
  assert (Hsent : snd (snd
            match Ingest.send_all (Ingest.load_queries graph) (d, []) with
            | (Ok _, d') => (Ok (Ingest.success_model graph), d')
            | (Raise e, d') => (Ok (Ingest.failure_model e), d')
            end) = sent).
  { destruct (Ingest.send_all _ (d, [])) as [[[]|e] d']; exact Hlog. }
  rewrite Hsent.
  split; [by exists rest|]. split; [|split].
  - intros model d' Hrun Hstatus.
    destruct (Ingest.send_all _ (d, [])) as [[[]|e] d''] eqn:Hsend.
    + rewrite (Hok () eq_refl) in Hsplit. by rewrite app_nil_r in Hsplit.
    + injection Hrun as <- _. discriminate.
  - intros before q after -> Hq. unfold Ingest.load_queries in Hsplit.
    destruct before as [|b before]; simpl in Hsplit.
    + injection Hsplit as <- _. discriminate.
    + injection Hsplit as <- _. by exists before.
  - intros before q after -> Hq. unfold Ingest.load_queries in Hsplit.
    destruct before as [|b before]; simpl in Hsplit.
    + injection Hsplit as <- _. discriminate.
    + injection Hsplit as <- Hsplit. rewrite <- app_assoc in Hsplit. simpl in Hsplit.
      symmetry in Hsplit.
      apply writes_split in Hsplit as (rb & -> & HR); [| |done].
      * split; [by exists rb|].
        assert (HallR : Forall (fun q' => Ingest.is_relationship_write q' = true)
                          (map Ingest.relationship_query
                             (Ingest.Neo4jGraph.relationships graph))).
        { apply Forall_forall. intros x (r & -> & _)%list_elem_of_fmap. done. }
        rewrite HR in HallR.
        apply Forall_app in HallR as [_ HallR].
        apply Forall_cons in HallR as [_ HallR].
        by apply Forall_app in HallR as [HallR _].
      * apply Forall_forall. intros x (n & -> & _)%list_elem_of_fmap. done.
Qed.

(** Sending through the logging driver: the queries that went through
    are logged in order and were applied to the driver below, and sending
    stops only at the end or at a query that the driver below refuses. *)
Lemma send_all_log_exact (qs : list Ingest.Query) :
  forall (d : D) (log : list Ingest.Query),
  exists sent d',
    Ingest.send_all sent d = (Ok tt, d')
    /\ ((qs = sent
         /\ Ingest.send_all qs (d, log) = (Ok tt, (d', log ++ sent)))
        \/ (exists q rest e,
              qs = sent ++ q :: rest
              /\ Ingest.send q d' = Raise e
              /\ Ingest.send_all qs (d, log) = (Raise e, (d', log ++ sent)))).
Proof.
  induction qs as [|q qs IH]; intros d log.
  - exists [], d. split; [done|]. left. split; [done|].
    simpl. by rewrite app_nil_r.
  - destruct (Ingest.send q d) as [d1|e] eqn:Hq.
    + destruct (IH d1 (log ++ [q])) as (sent & d' & Hsent & Hcase).
      exists (q :: sent), d'. split.
      { unfold Ingest.send_all in *. simpl.
        by rewrite act_bind_eq, call_eq, Hq. }
      assert (Hstep : Ingest.send_all (q :: qs) (d, log)
                      = Ingest.send_all qs (d1, log ++ [q])).
      { unfold Ingest.send_all. simpl.
        by rewrite act_bind_eq, call_eq, send_logged, Hq. }
      rewrite Hstep.
      destruct Hcase as [[-> Hall]|(q' & rest & e & -> & Hq' & Hall)].
      * left. split; [done|]. rewrite Hall. by rewrite <- app_assoc.
      * right. exists q', rest, e. split; [done|]. split; [done|].
        rewrite Hall. by rewrite <- app_assoc.
    + exists [], d. split; [done|]. right. exists q, qs, e.
      split; [done|]. split; [done|].
      unfold Ingest.send_all. simpl.
      by rewrite act_bind_eq, call_eq, send_logged, Hq, app_nil_r.
Qed.

(** The log of a load is the longest run of its queries that the driver
    accepted: every logged query was applied, in order, and the load ends
    either with all of them logged and SUCCESS, or at the first query the
    driver refuses, with FAILURE and the text of that refusal. *)
Lemma run_log_exact (graph : Ingest.Neo4jGraph.t) (d : D) :
  exists model d',
    Ingest.run graph (d, []) = (Ok model, (d', Ingest.run_log graph d))
    /\ Ingest.send_all (Ingest.run_log graph d) d = (Ok tt, d')
    /\ ((Ingest.run_log graph d = Ingest.load_queries graph
         /\ model = Ingest.success_model graph)
        \/ (exists q rest e,
              Ingest.load_queries graph = Ingest.run_log graph d ++ q :: rest
              /\ Ingest.send q d' = Raise e
              /\ model = Ingest.failure_model e)).
Proof.
  unfold Ingest.run_log. rewrite run_as_queries.
  destruct (send_all_log_exact (Ingest.load_queries graph) d [])
    as (sent & d' & Hsent & [[Hqs Hall]|(q & rest & e & Hqs & Hq & Hall)]);
    rewrite Hall; simpl.
  - exists (Ingest.success_model graph), d'. split; [done|]. split; [done|].
    left. by split.
  - exists (Ingest.failure_model e), d'. split; [done|]. split; [done|].
    right. by exists q, rest, e.
Qed.

(** The reset goes first whenever the driver accepts it. *)
Lemma run_log_starts_with_reset (graph : Ingest.Neo4jGraph.t) (d d1 : D) :
  Ingest.execute_query Ingest.WipeAll d = Ok d1 ->
  exists tail, Ingest.run_log graph d = Ingest.WipeAll :: tail.
Proof.
  intros Hwipe.
  destruct (run_log_exact graph d) as (model & d' & _ & Hsent & Hcase).
  destruct (Ingest.run_log graph d) as [|q0 tail].
  - injection Hsent as <-.
    destruct Hcase as [[Hall _]|(q & rest & e & Hqs & Hq & _)]; [done|].
    injection Hqs as <- _. simpl in Hq. congruence.
  - exists tail.
    destruct Hcase as [[Hall _]|(q & rest & e & Hqs & _)].
    + by injection Hall as ->.
    + by injection Hqs as <-.
Qed.

(** C3: the queries of a load go through in a fixed order: the reset, the
    node writes, the relationship writes.  What went through is a prefix of
    that sequence and, on SUCCESS, all of it; a node write is preceded by
    the reset; a relationship write is preceded by the reset and by every
    node write, and followed by relationship writes only; the reset leaves
    a store with no node and no relationship, whatever it held.  The reset
    depends on nothing: it is the first query of every load, and it goes
    through whenever the driver accepts it.  And nothing is left out: every
    query that went through was applied to the database, in order, and the
    load stops either after the last query, with SUCCESS, or at the first
    query that the driver refuses, with FAILURE and the text of the
    refusal. *)
Theorem run_order (graph : Ingest.Neo4jGraph.t) (d : D) :
  (exists rest, Ingest.load_queries graph = Ingest.run_log graph d ++ rest)
  /\ (forall model d',
        Ingest.run graph (d, []) = (Ok model, d') ->
        Ingest.KGWriterModel.status model = Ingest.SUCCESS ->
        Ingest.run_log graph d = Ingest.load_queries graph)
  /\ (forall before q after,
        Ingest.run_log graph d = before ++ q :: after ->
        Ingest.is_node_write q = true ->
        exists before', before = Ingest.WipeAll :: before')
  /\ (forall before q after,
        Ingest.run_log graph d = before ++ q :: after ->
        Ingest.is_relationship_write q = true ->
        (exists rels_before,
            before = Ingest.WipeAll
                       :: map Ingest.node_query (Ingest.Neo4jGraph.nodes graph)
                       ++ rels_before)
        /\ Forall (fun q' => Ingest.is_relationship_write q' = true) after)
  /\ (forall s, Ingest.apply_query Ingest.WipeAll s = Ingest.Store.Build [] [])
  /\ (forall db : Ingest.Database.t,
        Ingest.send Ingest.WipeAll db
        = Ok (Ingest.Database.with_store db (Ingest.Store.Build [] [])))
  /\ (exists tail, Ingest.load_queries graph = Ingest.WipeAll :: tail)
  /\ (forall d1,
        Ingest.execute_query Ingest.WipeAll d = Ok d1 ->
        exists tail, Ingest.run_log graph d = Ingest.WipeAll :: tail)
  /\ (forall e,
        Ingest.execute_query Ingest.WipeAll d = Raise e ->
        Ingest.run graph d = (Ok (Ingest.failure_model e), d))
  /\ (exists model d',
        Ingest.run graph (d, []) = (Ok model, (d', Ingest.run_log graph d))
        /\ Ingest.send_all (Ingest.run_log graph d) d = (Ok tt, d')
        /\ ((Ingest.run_log graph d = Ingest.load_queries graph
             /\ model = Ingest.success_model graph)
            \/ (exists q rest e,
                  Ingest.load_queries graph = Ingest.run_log graph d ++ q :: rest
                  /\ Ingest.send q d' = Raise e
                  /\ model = Ingest.failure_model e))).
Proof.
  destruct (run_log_order graph d) as (Hprefix & Hsuccess & Hnode & Hrel).
  split; [done|]. split; [done|]. split; [done|]. split; [done|].
  split; [done|]. split; [done|]. split; [by eexists|].
  split; [apply run_log_starts_with_reset|].
  split; [|apply run_log_exact].
  intros e Hwipe. rewrite run_as_queries.
  unfold Ingest.load_queries, Ingest.send_all. simpl.
  by rewrite act_bind_eq, call_eq, Hwipe.
Qed.

End WriterOrder.

(** * Properties of the writer on the property-graph store *)

Section StoreFacts.

Import Ingest.

(** Every node passed the validator. *)
Lemma all_keep_id (nodes : list Neo4jNode.t) : Forall keeps_id nodes.
Proof. apply Forall_forall. intros node _. apply Neo4jNode.id_reserved. Qed.

Lemma with_store_same (db : Database.t) :
  Database.with_store db (Database.store db) = db.
Proof. by destruct db. Qed.

(** A statement with a plain name does to the store what [apply_query]
    says. *)
Lemma send_plain (q : Query) (db : Database.t) :
  plain_query q = true ->
  send q db = Ok (Database.with_store db (apply_query q (Database.store db))).
Proof.
  destruct q as [|label id props|type start_id end_id props]; [done| |];
    unfold plain_query; simpl; unfold execute; simpl; by intros ->.
Qed.

Lemma send_all_plain (qs : list Query) :
  forall db : Database.t,
    Forall (fun q => plain_query q = true) qs ->
    send_all qs db
    = (Ok tt, Database.with_store db (apply_all qs (Database.store db))).
Proof.
  induction qs as [|q qs IH]; intros db Hplain.
  - simpl. by rewrite with_store_same.
  - apply Forall_cons in Hplain as [Hq Hplain].
    unfold send_all in *. simpl. rewrite act_bind_eq, call_eq, (send_plain _ _ Hq).
    by rewrite IH.
Qed.

Lemma apply_all_app (qs1 qs2 : list Query) (s : Store.t) :
  apply_all (qs1 ++ qs2) s = apply_all qs2 (apply_all qs1 s).
Proof. unfold apply_all. apply fold_left_app. Qed.

Lemma plain_node_queries (graph : Neo4jGraph.t) :
  plain_graph graph ->
  Forall (fun q => plain_query q = true) (map node_query (Neo4jGraph.nodes graph)).
Proof.
  intros [Hnodes _]. apply Forall_forall.
  intros q (node & -> & Hnode)%list_elem_of_fmap.
  rewrite Forall_forall in Hnodes. by apply Hnodes.
Qed.

Lemma plain_relationship_queries (graph : Neo4jGraph.t) :
  plain_graph graph ->
  Forall (fun q => plain_query q = true)
         (map relationship_query (Neo4jGraph.relationships graph)).
Proof.
  intros [_ Hrels]. apply Forall_forall.
  intros q (rel & -> & Hrel)%list_elem_of_fmap.
  rewrite Forall_forall in Hrels. by apply Hrels.
Qed.

Lemma plain_load_queries (graph : Neo4jGraph.t) :
  plain_graph graph ->
  Forall (fun q => plain_query q = true) (load_queries graph).
Proof.
  intros Hplain. unfold load_queries. apply Forall_cons. split; [done|].
  apply Forall_app. split.
  - by apply plain_node_queries.
  - by apply plain_relationship_queries.
Qed.

(** With plain names a load always succeeds and leaves the graph written
    over an empty store. *)
Lemma run_database (graph : Neo4jGraph.t) (db : Database.t) :
  plain_graph graph ->
  run graph db
  = (Ok (success_model graph),
     Database.with_store db
       (apply_all (map relationship_query (Neo4jGraph.relationships graph))
                  (after_node_writes graph))).
Proof.
  intros Hplain.
  rewrite run_as_queries, (send_all_plain _ _ (plain_load_queries _ Hplain)).
  unfold load_queries.
  change (WipeAll :: ?l) with ([WipeAll] ++ l).
  by rewrite !apply_all_app.
Qed.


(** [SET n += $props] leaves alone a key that [props] does not have. *)
Lemma set_plus_lookup_absent (props : Dict) (k : string) :
  forall m : gmap string PropertyValue,
    dict_mem props k = false -> set_plus m props !! k = m !! k.
Proof.
  unfold set_plus.
  induction props as [|[k' v] props IH]; intros m Hmem; simpl in *; [done|].
  destruct (String.eqb k' k) eqn:Hk; [done|].
  apply String.eqb_neq in Hk.
  rewrite (IH _ Hmem).
  destruct v; by rewrite ?lookup_insert_ne, ?lookup_delete_ne.
Qed.


Lemma merge_matches_signature (label id : string) (n : StoredNode.t) :
  merge_matches label id n = signature_matches label id (signature n).
Proof. reflexivity. Qed.

Lemma existsb_map {A B : Type} (f : A -> B) (p : B -> bool) (l : list A) :
  existsb p (map f l) = existsb (fun x => p (f x)) l.
Proof. induction l as [|x l IH]; simpl; [done|by rewrite IH]. Qed.

(** What a node write does to the signatures of the store, when the
    properties written do not assign [id]: nothing if a node matches,
    and otherwise one signature is added at the end. *)
Lemma merge_node_signatures (label id : string) (props : Dict) (s : Store.t) :
  dict_mem props "id" = false ->
  map signature (Store.nodes (merge_node label id props s))
  = if existsb (signature_matches label id) (map signature (Store.nodes s))
    then map signature (Store.nodes s)
    else map signature (Store.nodes s) ++ [([label], Some (PStr id))].
Proof.
  intros Hid. unfold merge_node. rewrite existsb_map.
  change (fun x => signature_matches label id (signature x))
    with (merge_matches label id).
  destruct (existsb (merge_matches label id) (Store.nodes s)); simpl.
  - rewrite map_map. apply map_ext. intros n.
    destruct (merge_matches label id n); [|done].
    unfold signature. simpl. by rewrite set_plus_lookup_absent.
  - rewrite map_app. simpl. unfold signature at 2. simpl.
    by rewrite set_plus_lookup_absent, lookup_singleton_eq.
Qed.

Lemma merge_node_rels (label id : string) (props : Dict) (s : Store.t) :
  Store.rels (merge_node label id props s) = Store.rels s.
Proof. unfold merge_node. by destruct (existsb _ _). Qed.

Lemma node_writes_rels (nodes : list Neo4jNode.t) :
  forall s, Store.rels (apply_all (map node_query nodes) s) = Store.rels s.
Proof.
  induction nodes as [|n nodes IH]; intros s; [done|].
  unfold apply_all in *. simpl. by rewrite IH, merge_node_rels.
Qed.

(** Writing nodes that are new to the store and distinct from one
    another adds their signatures in order. *)
Lemma node_writes_fresh (todo : list Neo4jNode.t) :
  forall (written : list Neo4jNode.t) (s : Store.t),
    map signature (Store.nodes s) = map node_signature written ->
    NoDup (map node_identity (written ++ todo)) ->
    Forall keeps_id todo ->
    map signature (Store.nodes (apply_all (map node_query todo) s))
    = map node_signature (written ++ todo).
Proof.
  induction todo as [|n todo IH]; intros written s Hsig Hnodup Hkeep.
  - by rewrite app_nil_r.
  - apply Forall_cons in Hkeep as [Hn Hkeep].
    unfold apply_all in *. simpl.
    replace (written ++ n :: todo) with ((written ++ [n]) ++ todo) in *
      by (by rewrite <- app_assoc).
    apply IH; [|done|done].
    rewrite (merge_node_signatures _ _ _ _ Hn), Hsig.
    replace (existsb _ _) with false; [by rewrite map_app|].
    symmetry. apply not_true_is_false. intros Hex.
    apply existsb_exists in Hex as (sg & Hin & Hmatch).
    apply in_map_iff in Hin as (w & <- & Hw).
    unfold signature_matches, signature_has_id, node_signature in Hmatch.
    simpl in Hmatch. apply andb_true_iff in Hmatch as [Hlabel Hid].
    apply String.eqb_eq in Hid.
    apply bool_decide_eq_true, list_elem_of_singleton in Hlabel.
    rewrite map_app in Hnodup. apply NoDup_app in Hnodup as (Hnd & _ & _).
    rewrite map_app in Hnd. apply NoDup_app in Hnd as (_ & Hdisj & _).
    apply (Hdisj (node_identity w)).
    + apply list_elem_of_fmap. exists w. split; [done|]. by apply list_elem_of_In.
    + simpl. unfold node_identity. rewrite Hid, Hlabel.
      by apply list_elem_of_singleton.
Qed.





Lemma flat_map_const_length {A B : Type} (f : A -> list B) (l : list A) (k : nat) :
  (forall a, length (f a) = k) -> length (flat_map f l) = length l * k.
Proof.
  intros Hk. induction l as [|a l IH]; simpl; [done|].
  by rewrite length_app, IH, Hk.
Qed.

Lemma created_edges_length type start_id end_id props nodes :
  length (created_edges type start_id end_id props nodes)
  = length (positions (has_id start_id) 0 nodes)
    * length (positions (has_id end_id) 0 nodes).
Proof.
  unfold created_edges. apply flat_map_const_length.
  intros a. apply length_map.
Qed.


(** The relationship writes add edges and touch no node. *)
Lemma relationship_writes_store (rels : list Neo4jRelationship.t) :
  forall s : Store.t,
    apply_all (map relationship_query rels) s
    = Store.Build (Store.nodes s)
        (Store.rels s ++ concat (map (edges_of (Store.nodes s)) rels)).
Proof.
  induction rels as [|r rels IH]; intros s.
  - simpl. rewrite app_nil_r. by destruct s.
  - unfold apply_all in *. simpl. rewrite IH. simpl.
    by rewrite <- app_assoc.
Qed.

Lemma positions_length_signature (x : string) (nodes : list StoredNode.t) :
  forall (all : list Neo4jNode.t) (i : nat),
    map signature nodes = map node_signature all ->
    length (positions (has_id x) i nodes) = length (nodes_with_id x all).
Proof.
  unfold nodes_with_id.
  induction nodes as [|m nodes IH]; intros [|n all] i Hsig; simpl in *; try done.
  injection Hsig as _ Hid Hsig.
  unfold has_id at 1. rewrite Hid.
  destruct (String.eqb (Neo4jNode.id n) x); simpl; by rewrite (IH all).
Qed.

Lemma nodes_with_id_absent (x : string) (all : list Neo4jNode.t) :
  x ∉ map Neo4jNode.id all -> nodes_with_id x all = [].
Proof.
  unfold nodes_with_id.
  induction all as [|n all IH]; intros Hx; simpl in *; [done|].
  apply not_elem_of_cons in Hx as [Hne Hx].
  destruct (String.eqb (Neo4jNode.id n) x) eqn:Heq; [|by apply IH].
  apply String.eqb_eq in Heq. congruence.
Qed.

(** Among nodes with pairwise distinct ids, an id that occurs is the id
    of exactly one node. *)
Lemma nodes_with_id_unique (x : string) (all : list Neo4jNode.t) :
  NoDup (map Neo4jNode.id all) ->
  x ∈ map Neo4jNode.id all ->
  length (nodes_with_id x all) = 1.
Proof.
  induction all as [|n all IH]; intros Hnd Hx; simpl in *.
  - by apply elem_of_nil in Hx.
  - apply NoDup_cons in Hnd as [Hfresh Hnd].
    change (nodes_with_id x (n :: all))
      with (if String.eqb (Neo4jNode.id n) x
            then n :: nodes_with_id x all else nodes_with_id x all).
    destruct (String.eqb (Neo4jNode.id n) x) eqn:Heq.
    + apply String.eqb_eq in Heq as <-. simpl.
      by rewrite (nodes_with_id_absent _ _ Hfresh).
    + apply String.eqb_neq in Heq.
      apply elem_of_cons in Hx as [Hx|Hx]; [congruence|]. by apply IH.
Qed.



Lemma after_node_writes_rels (graph : Neo4jGraph.t) :
  Store.rels (after_node_writes graph) = [].
Proof. unfold after_node_writes. by rewrite node_writes_rels. Qed.

Lemma after_node_writes_signatures (graph : Neo4jGraph.t) :
  NoDup (map node_identity (Neo4jGraph.nodes graph)) ->
  map signature (Store.nodes (after_node_writes graph))
  = map node_signature (Neo4jGraph.nodes graph).
Proof.
  intros Hnd. unfold after_node_writes.
  apply (node_writes_fresh _ [] Store.empty); [done|done|apply all_keep_id].
Qed.



End StoreFacts.

(** The scenario of the specification: two stored nodes and one stored
    edge of type FIGHTS with its episode number, whatever the database
    held. *)
Example scenario_counts :
  length (Ingest.Store.nodes
            (Ingest.Database.store
               (snd (Ingest.run IngestExamples.scenario IngestExamples.used))))
  = 2
  /\ map Ingest.StoredRel.type
         (Ingest.Store.rels
            (Ingest.Database.store
               (snd (Ingest.run IngestExamples.scenario IngestExamples.used))))
     = ["FIGHTS"]
  /\ map (fun r => Ingest.StoredRel.props r !! "episode_number")
         (Ingest.Store.rels
            (Ingest.Database.store
               (snd (Ingest.run IngestExamples.scenario IngestExamples.used))))
     = [Some (PStr "S1E01")].
Proof. repeat split; vm_compute; reflexivity. Qed.

(** Two nodes that share an id under different labels: the relationship
    statement matches both at each end and creates four edges. *)
Example shared_id_multiplies_edges :
  length (Ingest.Store.nodes
            (Ingest.Database.store
               (snd (Ingest.run IngestExamples.twins IngestExamples.fresh))))
  = 2
  /\ length (Ingest.Store.rels
               (Ingest.Database.store
                  (snd (Ingest.run IngestExamples.twins IngestExamples.fresh))))
     = 4.
Proof. split; vm_compute; reflexivity. Qed.

(** Which names are plain. *)
Example plain_names :
  Ingest.plain_name "person" = true
  /\ Ingest.plain_name "FIGHTS" = true
  /\ Ingest.plain_name "A:B" = false
  /\ Ingest.plain_name "FIGHTS WITH" = false
  /\ Ingest.plain_name "" = false
  /\ Ingest.unreadable_name "FIGHTS WITH" = true
  /\ Ingest.unreadable_name "" = true
  /\ Ingest.unreadable_name "A:B" = false.
Proof. repeat split. Qed.





(** A load over a connection that is lost after two statements. *)
Lemma run_failure_keeps_partial_writes_witness :
  Ingest.run IngestExamples.scenario (Ingest.Flaky.Build IngestExamples.fresh 2)
  = (Ok (Ingest.KGWriterModel.Build Ingest.FAILURE
           [("error", PStr "ServiceUnavailable")]),
     Ingest.Flaky.Build
       (Ingest.Database.with_store IngestExamples.fresh
          (Ingest.apply_all
             [Ingest.WipeAll; Ingest.node_query IngestExamples.person]
             Ingest.Store.empty)) 0).
Proof.
  apply (run_failure_keeps_partial_writes IngestExamples.scenario
           (Ingest.Flaky.Build IngestExamples.fresh 2)
           (Ingest.Flaky.Build
              (Ingest.Database.with_store IngestExamples.fresh
                 (Ingest.apply_all
                    [Ingest.WipeAll; Ingest.node_query IngestExamples.person]
                    Ingest.Store.empty)) 0)
           [Ingest.WipeAll; Ingest.node_query IngestExamples.person]
           [Ingest.relationship_query IngestExamples.fights]
           (Ingest.node_query IngestExamples.demon)
           "ServiceUnavailable").
  - reflexivity.
  - reflexivity.
  - reflexivity.
Defined.

(** The queries of the scenario, as a logging driver over the database
    sees them. *)
Lemma run_order_witness :
  Ingest.run_log IngestExamples.scenario IngestExamples.used
  = [ Ingest.WipeAll;
      Ingest.node_query IngestExamples.person;
      Ingest.node_query IngestExamples.demon;
      Ingest.relationship_query IngestExamples.fights ].
Proof.
  destruct (run_order IngestExamples.scenario IngestExamples.used)
    as (_ & Hsuccess & _).
  apply (Hsuccess (Ingest.success_model IngestExamples.scenario)
                  (snd (Ingest.run IngestExamples.scenario
                          (IngestExamples.used, [])))).
  - vm_compute. reflexivity.
  - reflexivity.
Defined.

(** * Further properties of the merge *)

Section MergeAlgebra.

Variable py_str : option Dict -> string.

Abbreviation key' := (Prepare.node_key py_str).
Abbreviation combine' := (Prepare.combine_chunk_graphs py_str).
Abbreviation kept' := (keep_first py_str).

Lemma combine_closed_form (gs : list Prepare.GraphResponse.t) :
  combine' gs
  = Prepare.GraphResponse.Build (kept' [] (all_nodes_of gs)) (all_relationships_of gs).
Proof.
  rewrite <- (combine_nodes py_str), <- (combine_relationships py_str).
  by destruct (combine' gs).
Qed.

(** Nodes whose keys are new and pairwise distinct are all kept. *)
Lemma keep_first_NoDup l :
  forall before,
    NoDup (map key' l) ->
    (forall x, x ∈ l -> key' x ∉ map key' before) ->
    kept' before l = l.
Proof.
  induction l as [|n l IH]; intros before Hnd Hfresh; simpl; [done|].
  simpl in Hnd. apply NoDup_cons in Hnd as [Hn Hnd].
  destruct (decide (key' n ∈ map key' before)) as [Hin|_].
  - exfalso. by apply (Hfresh n); [left|].
  - simpl. f_equal. apply IH; [done|].
    intros x Hx. rewrite map_app, elem_of_app. simpl.
    rewrite list_elem_of_singleton. intros [Hb|Heq].
    + by apply (Hfresh x); [right|].
    + apply Hn. rewrite <- Heq. apply list_elem_of_fmap. by exists x.
Qed.

Lemma keep_first_keys (l : list Prepare.Node.t) (k : Prepare.NodeKey) :
  k ∈ map key' (kept' [] l) <-> k ∈ map key' l.
Proof.
  split.
  - intros (m & -> & Hm)%list_elem_of_fmap.
    apply (elem_of_keep_first py_str) in Hm as (pre & suf & -> & _).
    apply list_elem_of_fmap. exists m. split; [done|].
    apply elem_of_app. right. by left.
  - intros Hk. destruct (keep_first_represents py_str l k Hk) as (m & Hm & <-).
    apply list_elem_of_fmap. by exists m.
Qed.

(** Merging in two stages: what was kept from the first part stands for
    the first part. *)
Lemma keep_first_staged (a b : list Prepare.Node.t) :
  kept' (kept' [] a) (kept' [] b) = kept' a b.
Proof.
  transitivity (filter (fun n => key' n ∉ map key' (kept' [] a))
                       (kept' [] (kept' [] b))).
  { rewrite <- (keep_first_filter py_str). by rewrite app_nil_r. }
  transitivity (filter (fun n => key' n ∉ map key' a) (kept' [] b)).
  2: { rewrite <- (keep_first_filter py_str). by rewrite app_nil_r. }
  rewrite (keep_first_NoDup (kept' [] b) []).
  - apply list_filter_iff. intros x. by rewrite keep_first_keys.
  - apply (keep_first_keys_NoDup py_str).
  - intros x _. simpl. apply not_elem_of_nil.
Qed.

(** X1: merging is idempotent: the merge of a merged graph alone is that
    graph. *)
Theorem combine_idempotent (gs : list Prepare.GraphResponse.t) :
  combine' [combine' gs] = combine' gs.
Proof.
  rewrite (combine_closed_form [combine' gs]).
  unfold all_nodes_of, all_relationships_of. simpl. rewrite !app_nil_r.
  rewrite (combine_nodes py_str), (combine_relationships py_str).
  rewrite (keep_first_NoDup (kept' [] (all_nodes_of gs)) []).
  - by rewrite <- combine_closed_form.
  - apply (keep_first_keys_NoDup py_str).
  - intros x _. simpl. apply not_elem_of_nil.
Qed.

(** X2: merging can be done in stages: merging two sequences of graphs
    put end to end gives the merge of their two merged graphs. *)
Theorem combine_staged (gs1 gs2 : list Prepare.GraphResponse.t) :
  combine' (gs1 ++ gs2) = combine' [combine' gs1; combine' gs2].
Proof.
  rewrite (combine_closed_form (gs1 ++ gs2)).
  rewrite (combine_closed_form [combine' gs1; combine' gs2]).
  unfold all_nodes_of, all_relationships_of. simpl. rewrite !app_nil_r.
  rewrite !(combine_nodes py_str), !(combine_relationships py_str).
  unfold all_nodes_of, all_relationships_of.
  rewrite !map_app, !concat_app. f_equal.
  rewrite !(keep_first_app py_str). simpl.
  rewrite keep_first_staged. f_equal.
  symmetry. apply keep_first_NoDup.
  - apply (keep_first_keys_NoDup py_str).
  - intros x _. simpl. apply not_elem_of_nil.
Qed.

Lemma sublist_full {A : Type} (l1 l2 : list A) :
  sublist l1 l2 -> length l2 <= length l1 -> l1 = l2.
Proof.
  induction 1 as [|x l1 l2 Hsub IH|x l1 l2 Hsub IH]; simpl; intros Hlen.
  - done.
  - f_equal. apply IH. lia.
  - apply sublist_length in Hsub. lia.
Qed.

(** X3: the merge never has more nodes than its inputs together, and it
    has as many exactly when the keys of the input nodes are pairwise
    distinct, in which case it returns the input nodes as they are. *)
Theorem combine_node_count (gs : list Prepare.GraphResponse.t) :
  length (Prepare.GraphResponse.nodes (combine' gs)) <= length (all_nodes_of gs)
  /\ (length (Prepare.GraphResponse.nodes (combine' gs)) = length (all_nodes_of gs)
      <-> NoDup (map key' (all_nodes_of gs)))
  /\ (NoDup (map key' (all_nodes_of gs)) ->
      Prepare.GraphResponse.nodes (combine' gs) = all_nodes_of gs).
Proof.
  rewrite (combine_nodes py_str).
  pose proof (keep_first_sublist py_str (all_nodes_of gs) []) as Hsub.
  assert (Hall : NoDup (map key' (all_nodes_of gs)) ->
                 kept' [] (all_nodes_of gs) = all_nodes_of gs).
  { intros Hnd. apply keep_first_NoDup; [done|].
    intros x _. simpl. apply not_elem_of_nil. }
  split; [by apply sublist_length|]. split; [|done].
  split.
  - intros Hlen.
    assert (Heq : kept' [] (all_nodes_of gs) = all_nodes_of gs).
    { apply sublist_full; [done|]. by rewrite Hlen. }
    rewrite <- Heq. apply (keep_first_keys_NoDup py_str).
  - intros Hnd. by rewrite Hall.
Qed.

End MergeAlgebra.

(** * Further properties of the per-episode processing *)

(** No display name of the table is itself a canonical name. *)
Lemma korean_names_final (s korean : string) :
  Prepare.KOREAN_NODE_MAP !! s = Some korean ->
  Prepare.KOREAN_NODE_MAP !! korean = None.
Proof.
  assert (Hall : map_Forall (fun _ k => Prepare.KOREAN_NODE_MAP !! k = None)
                            Prepare.KOREAN_NODE_MAP).
  { apply (bool_decide_unpack _). vm_compute. exact I. }
  intros Hs. exact (Hall s korean Hs).
Qed.

Lemma exc_map_Ok {A B : Type} (f : A -> Exc B) (l : list A) (l' : list B) :
  exc_map f l = Ok l' <-> Forall2 (fun x y => f x = Ok y) l l'.
Proof.
  revert l'. induction l as [|x l IH]; intros l'; simpl.
  - split.
    + intros [= <-]. constructor.
    + intros Hf. by inversion Hf.
  - split.
    + destruct (f x) as [y|e] eqn:Hx; simpl; [|done].
      destruct (exc_map f l) as [ys|e] eqn:Hl; simpl; [|done].
      intros [= <-]. constructor; [done|]. by apply IH.
    + intros Hf. inversion Hf as [|? y ? ys Hx Hrest]; subst.
      rewrite Hx. simpl. apply IH in Hrest. by rewrite Hrest.
Qed.

Lemma exc_map_Raise {A B : Type} (f : A -> Exc B) (l : list A) :
  (exists e, exc_map f l = Raise e) <-> exists x e, x ∈ l /\ f x = Raise e.
Proof.
  induction l as [|x l IH]; simpl.
  - split.
    + by intros [e ?].
    + intros (x & e & Hin & _). by apply elem_of_nil in Hin.
  - destruct (f x) as [y|e] eqn:Hx; simpl.
    + destruct (exc_map f l) as [ys|e] eqn:Hl; simpl.
      * split; [by intros [e ?]|].
        intros (x' & e & Hin & Hx').
        apply elem_of_cons in Hin as [->|Hin]; [congruence|].
        assert (Hex : exists x e, x ∈ l /\ f x = Raise e) by eauto.
        apply IH in Hex as [e' He']. discriminate.
      * split; [|by eauto].
        intros _. assert (Hex : exists e0, Raise e = @Raise (list B) e0) by eauto.
        apply IH in Hex as (x' & e' & Hin & Hx').
        exists x', e'. split; [by right|done].
    + split; [|by eauto]. intros _. exists x, e. split; [by left|done].
Qed.

(** What the loop (3) returns for a node, when it returns. *)
Lemma localize_node_Ok (node node' : Prepare.Node.t) :
  Prepare.localize_node node = Ok node' ->
  Prepare.Node.id node' = Prepare.Node.id node
  /\ Prepare.Node.label node' = Prepare.Node.label node
  /\ exists d d',
      Prepare.Node.properties node = Some d
      /\ Prepare.Node.properties node' = Some d'
      /\ Prepare.korean_name (dict_get d' "name" (PStr "")) = None.
Proof.
  unfold Prepare.localize_node.
  destruct (Prepare.Node.properties node) as [d|] eqn:Hd; [|done].
  destruct (Prepare.korean_name (dict_get d "name" (PStr ""))) as [korean|] eqn:Hk.
  - intros [= <-]. simpl. split; [done|]. split; [done|].
    exists d, (dict_set d "name" (PStr korean)). split; [done|]. split; [done|].
    rewrite dict_get_set_same. simpl.
    unfold Prepare.korean_name in Hk.
    destruct (dict_get d "name" (PStr "")) as [s| | | |]; try done.
    by apply (korean_names_final s).
  - intros [= <-]. split; [done|]. split; [done|].
    exists d, d. split; [done|]. split; [exact Hd|exact Hk].
Qed.

Lemma localize_node_Raise (node : Prepare.Node.t) :
  (exists e, Prepare.localize_node node = Raise e)
  <-> Prepare.Node.properties node = None.
Proof.
  unfold Prepare.localize_node.
  destruct (Prepare.Node.properties node) as [d|].
  - split; [|done]. intros [e He]. by destruct (Prepare.korean_name _).
  - split; [done|]. intros _. eauto.
Qed.

(** X4: the name rewriting is idempotent: a node that went through it
    goes through it again unchanged, since no display name of the table is
    a canonical name. *)
Theorem localize_node_idempotent (node node' : Prepare.Node.t) :
  Prepare.localize_node node = Ok node' ->
  Prepare.localize_node node' = Ok node'.
Proof.
  intros (_ & _ & d & d' & _ & Hd' & Hfinal)%localize_node_Ok.
  unfold Prepare.localize_node. by rewrite Hd', Hfinal.
Qed.

(** A node with a name of the table, and its image. *)
Lemma localize_node_idempotent_witness :
  Prepare.localize_node
    (Prepare.Node.Build "N1" "인간" (Some [("name", PStr "카마도 네즈코")]))
  = Ok (Prepare.Node.Build "N1" "인간" (Some [("name", PStr "카마도 네즈코")])).
Proof.
  apply (localize_node_idempotent ProcessExamples.nezuko). reflexivity.
Defined.

Section ProcessMore.

Variable py_str : option Dict -> string.
Variable UPDATED_TEMPLATE : string.
Variable llm_call_structured : string -> Exc Prepare.GraphResponse.t.

Abbreviation process_episode' :=
  (Prepare.process_episode UPDATED_TEMPLATE llm_call_structured).
Abbreviation process_step' :=
  (Prepare.process_step UPDATED_TEMPLATE llm_call_structured).
Abbreviation process_chunks' :=
  (Prepare.process_chunks UPDATED_TEMPLATE llm_call_structured).
Abbreviation process_data' :=
  (Prepare.process_data py_str UPDATED_TEMPLATE llm_call_structured).

(** The synopsis that the [try] block of an episode works on. *)
Abbreviation text_of episode := (default "" (Prepare.Episode.synopsis episode)).

Lemma process_chunks_cons (e : Prepare.Episode.t) (episodes : list Prepare.Episode.t) :
  process_chunks' (e :: episodes) = process_step' [] e ++ process_chunks' episodes.
Proof.
  change (e :: episodes) with ([e] ++ episodes).
  by rewrite (process_chunks_app UPDATED_TEMPLATE llm_call_structured).
Qed.

(** An episode that adds nothing to [chunk_graphs] can be left out. *)
Lemma process_chunks_skip (e : Prepare.Episode.t) :
  process_step' [] e = [] ->
  forall before after,
    process_chunks' (before ++ e :: after) = process_chunks' (before ++ after)
    /\ process_data' (before ++ e :: after) = process_data' (before ++ after).
Proof.
  intros Hstep before after.
  assert (Heq : process_chunks' (before ++ e :: after)
                = process_chunks' (before ++ after)).
  { rewrite !(process_chunks_app UPDATED_TEMPLATE llm_call_structured).
    by rewrite process_chunks_cons, Hstep. }
  split; [done|]. unfold Prepare.process_data. by rewrite Heq.
Qed.

Lemma process_step_nil (e : Prepare.Episode.t) :
  process_step' [] e = []
  <-> Prepare.synopsis_missing e = true
      \/ exists msg, process_episode' e (text_of e) = Raise msg.
Proof.
  unfold Prepare.process_step.
  destruct (Prepare.synopsis_missing e); [by split; [left|]|].
  destruct (process_episode' e (text_of e)) as [g|msg]; simpl.
  - split; [done|]. by intros [?|[msg ?]].
  - split; [|done]. intros _. right. by exists msg.
Qed.

Lemma process_step_Ok (e : Prepare.Episode.t) (cg : Prepare.GraphResponse.t) :
  cg ∈ process_step' [] e
  <-> Prepare.synopsis_missing e = false /\ process_episode' e (text_of e) = Ok cg.
Proof.
  unfold Prepare.process_step.
  destruct (Prepare.synopsis_missing e).
  - split; [by intros ?%elem_of_nil|by intros [? _]].
  - destruct (process_episode' e (text_of e)) as [g|msg]; simpl.
    + rewrite list_elem_of_singleton. split; [by intros ->|by intros [_ [= ->]]].
    + split; [by intros ?%elem_of_nil|by intros [_ ?]].
Qed.

(** The chunk graphs are the responses of the episodes that have a
    synopsis and whose [try] block went through. *)
Lemma elem_of_process_chunks (episodes : list Prepare.Episode.t)
  (cg : Prepare.GraphResponse.t) :
  cg ∈ process_chunks' episodes
  <-> exists e, e ∈ episodes
                /\ Prepare.synopsis_missing e = false
                /\ process_episode' e (text_of e) = Ok cg.
Proof.
  induction episodes as [|e episodes IH].
  - split; [by intros ?%elem_of_nil|].
    intros (e & He & _). by apply elem_of_nil in He.
  - rewrite process_chunks_cons, elem_of_app, IH, process_step_Ok. split.
    + intros [[Hm Hok]|(e' & He' & Hm & Hok)].
      * exists e. split; [by left|done].
      * exists e'. split; [by right|done].
    + intros (e' & He' & Hm & Hok).
      apply elem_of_cons in He' as [->|He']; [by left|].
      right. by exists e'.
Qed.

Lemma process_episode_Ok (e : Prepare.Episode.t) (s : string)
  (cg : Prepare.GraphResponse.t) :
  process_episode' e s = Ok cg
  <-> exists g nodes',
        llm_call_structured (Prepare.prompt_for UPDATED_TEMPLATE s) = Ok g
        /\ exc_map Prepare.localize_node (Prepare.GraphResponse.nodes g) = Ok nodes'
        /\ cg = Prepare.GraphResponse.Build nodes'
                  (map (Prepare.tag_relationship (Prepare.episode_number_of e))
                       (Prepare.GraphResponse.relationships g)).
Proof.
  unfold Prepare.process_episode.
  destruct (llm_call_structured _) as [g|msg]; simpl.
  - destruct (exc_map _ (Prepare.GraphResponse.nodes g)) as [nodes'|msg] eqn:Hmap;
      simpl.
    + split.
      * intros [= <-]. by exists g, nodes'.
      * intros (g' & nodes'' & [= <-] & Hmap' & ->).
        rewrite Hmap in Hmap'. by injection Hmap' as <-.
    + split; [done|]. intros (g' & nodes'' & [= <-] & Hmap' & _).
      rewrite Hmap in Hmap'. discriminate.
  - split; [done|]. by intros (g' & nodes'' & ? & _).
Qed.

(** X5: an episode without a synopsis, absent or empty, contributes
    nothing: the chunk graphs and the result are those of the run without
    it. *)
Theorem missing_synopsis_skipped (e : Prepare.Episode.t) :
  Prepare.Episode.synopsis e = None \/ Prepare.Episode.synopsis e = Some "" ->
  forall before after,
    process_chunks' (before ++ e :: after) = process_chunks' (before ++ after)
    /\ process_data' (before ++ e :: after) = process_data' (before ++ after).
Proof.
  intros Hsyn. apply process_chunks_skip, process_step_nil. left.
  unfold Prepare.synopsis_missing. by destruct Hsyn as [-> | ->].
Qed.

(** X6: an episode for which the call to the language model raises is
    skipped, and the other episodes are processed as if it were not
    there. *)
Theorem failed_extraction_skipped (e : Prepare.Episode.t) (s msg : string) :
  Prepare.Episode.synopsis e = Some s ->
  llm_call_structured (Prepare.prompt_for UPDATED_TEMPLATE s) = Raise msg ->
  forall before after,
    process_chunks' (before ++ e :: after) = process_chunks' (before ++ after)
    /\ process_data' (before ++ e :: after) = process_data' (before ++ after).
Proof.
  intros Hsyn Hllm. apply process_chunks_skip, process_step_nil.
  destruct (Prepare.synopsis_missing e) eqn:Hmiss; [by left|]. right.
  exists msg. rewrite Hsyn. simpl. unfold Prepare.process_episode.
  by rewrite Hllm.
Qed.

Lemma process_chunks_nil (episodes : list Prepare.Episode.t) :
  process_chunks' episodes = []
  <-> forall e, e ∈ episodes -> process_step' [] e = [].
Proof.
  induction episodes as [|e episodes IH].
  - split; [|done]. intros _ e He. by apply elem_of_nil in He.
  - rewrite process_chunks_cons. split.
    + intros [He Hrest]%app_eq_nil e' [->|He']%elem_of_cons; [done|].
      by apply IH.
    + intros Hall. rewrite (Hall e) by (by left). simpl.
      apply IH. intros e' He'. apply Hall. by right.
Qed.

(** X7: [process_data] raises exactly when no episode gives a chunk
    graph, that is when every episode lacks a synopsis or has a [try]
    block that raises; otherwise it returns the merge of the chunk graphs.
    In particular it raises on no episode at all. *)
Theorem process_data_outcome (episodes : list Prepare.Episode.t) :
  (process_data' episodes = Raise "그래프를 성공적으로 추출하지 못했습니다."
   <-> forall e, e ∈ episodes ->
         Prepare.synopsis_missing e = true
         \/ exists msg, process_episode' e (text_of e) = Raise msg)
  /\ (process_data' episodes = Raise "그래프를 성공적으로 추출하지 못했습니다."
      \/ process_data' episodes
         = Ok (Prepare.combine_chunk_graphs py_str (process_chunks' episodes)))
  /\ process_data' [] = Raise "그래프를 성공적으로 추출하지 못했습니다.".
Proof.
  pose proof (process_chunks_nil episodes) as Hnil.
  split; [|split; [|done]].
  - unfold Prepare.process_data.
    destruct (process_chunks' episodes) as [|cg cgs] eqn:Hchunks.
    + split; [|done]. intros _ e He. apply process_step_nil.
      by apply Hnil.
    + split; [done|]. intros Hall.
      assert (Hempty : cg :: cgs = []); [|done].
      apply Hnil. intros e He. by apply process_step_nil, Hall.
  - unfold Prepare.process_data.
    destruct (process_chunks' episodes); [by left|by right].
Qed.

(** X8: the [try] block of an episode goes through exactly when the
    language model returns a response all of whose nodes have properties.
    It then keeps the nodes in number and order with their ids and labels,
    and the relationships in number and order with their types and
    endpoints. *)
Theorem process_episode_outcome (e : Prepare.Episode.t) (s : string) :
  ((exists cg, process_episode' e s = Ok cg)
   <-> exists g,
         llm_call_structured (Prepare.prompt_for UPDATED_TEMPLATE s) = Ok g
         /\ Forall (fun node => Prepare.Node.properties node <> None)
                   (Prepare.GraphResponse.nodes g))
  /\ (forall cg g,
        process_episode' e s = Ok cg ->
        llm_call_structured (Prepare.prompt_for UPDATED_TEMPLATE s) = Ok g ->
        map Prepare.Node.id (Prepare.GraphResponse.nodes cg)
        = map Prepare.Node.id (Prepare.GraphResponse.nodes g)
        /\ map Prepare.Node.label (Prepare.GraphResponse.nodes cg)
           = map Prepare.Node.label (Prepare.GraphResponse.nodes g)
        /\ map (fun r => (Prepare.Relationship.type r,
                          Prepare.Relationship.start_node_id r,
                          Prepare.Relationship.end_node_id r))
               (Prepare.GraphResponse.relationships cg)
           = map (fun r => (Prepare.Relationship.type r,
                            Prepare.Relationship.start_node_id r,
                            Prepare.Relationship.end_node_id r))
                 (Prepare.GraphResponse.relationships g)).
Proof.
  split.
  - split.
    + intros (cg & (g & nodes' & Hllm & Hmap & _)%process_episode_Ok).
      exists g. split; [done|].
      apply Forall_forall. intros node Hnode Hnone.
      assert (Hex : exists x e0, x ∈ Prepare.GraphResponse.nodes g
                                 /\ Prepare.localize_node x = Raise e0).
      { apply localize_node_Raise in Hnone as [e0 He0]. by exists node, e0. }
      apply exc_map_Raise in Hex as [e0 He0]. congruence.
    + intros (g & Hllm & Hall).
      destruct (exc_map Prepare.localize_node (Prepare.GraphResponse.nodes g))
        as [nodes'|msg] eqn:Hmap.
      * eexists. apply process_episode_Ok. by exists g, nodes'.
      * assert (Hex : exists e0, exc_map Prepare.localize_node
                                   (Prepare.GraphResponse.nodes g) = Raise e0)
          by eauto.
        apply exc_map_Raise in Hex as (x & e0 & Hx & Hraise).
        rewrite Forall_forall in Hall. exfalso. apply (Hall x Hx).
        apply localize_node_Raise. by exists e0.
  - intros cg g (g' & nodes' & Hllm & Hmap & ->)%process_episode_Ok Hg.
    rewrite Hllm in Hg. injection Hg as ->. simpl.
    apply exc_map_Ok in Hmap.
    split; [|split].
    + induction Hmap as [|x y l l' Hxy _ IH]; simpl; [done|].
      apply localize_node_Ok in Hxy as (-> & _). by rewrite IH.
    + induction Hmap as [|x y l l' Hxy _ IH]; simpl; [done|].
      apply localize_node_Ok in Hxy as (_ & -> & _). by rewrite IH.
    + rewrite map_map. by apply map_ext.
Qed.

(** The nodes and the relationships of the result come from the chunk
    graphs. *)
Lemma process_data_members (episodes : list Prepare.Episode.t)
  (g : Prepare.GraphResponse.t) :
  process_data' episodes = Ok g ->
  (forall node, node ∈ Prepare.GraphResponse.nodes g ->
     exists cg, cg ∈ process_chunks' episodes
                /\ node ∈ Prepare.GraphResponse.nodes cg)
  /\ (forall rel, rel ∈ Prepare.GraphResponse.relationships g ->
        exists cg, cg ∈ process_chunks' episodes
                   /\ rel ∈ Prepare.GraphResponse.relationships cg).
Proof.
  unfold Prepare.process_data.
  destruct (process_chunks' episodes) as [|cg0 cgs] eqn:Hchunks; [done|].
  intros [= <-]. split.
  - intros node Hnode. rewrite (combine_nodes py_str) in Hnode.
    apply (elem_of_keep_first py_str) in Hnode as (pre & suf & Hall & _).
    assert (Hin : node ∈ all_nodes_of (cg0 :: cgs)).
    { rewrite Hall. apply elem_of_app. right. by left. }
    unfold all_nodes_of in Hin. apply list_elem_of_In, in_concat in Hin as (l & Hl & Hn).
    apply in_map_iff in Hl as (cg & <- & Hcg).
    exists cg. split; by apply list_elem_of_In.
  - intros rel Hrel. rewrite (combine_relationships py_str) in Hrel.
    unfold all_relationships_of in Hrel.
    apply list_elem_of_In, in_concat in Hrel as (l & Hl & Hr).
    apply in_map_iff in Hl as (cg & <- & Hcg).
    exists cg. split; by apply list_elem_of_In.
Qed.

(** X9: every node of the graph that [process_data] returns has a
    properties dictionary, never [None], and its name is not a canonical
    name of the table any more. *)
Theorem process_data_nodes_localized (episodes : list Prepare.Episode.t)
  (g : Prepare.GraphResponse.t) :
  process_data' episodes = Ok g ->
  forall node, node ∈ Prepare.GraphResponse.nodes g ->
    exists d, Prepare.Node.properties node = Some d
              /\ Prepare.korean_name (dict_get d "name" (PStr "")) = None.
Proof.
  intros Hdata node Hnode.
  destruct (process_data_members episodes g Hdata) as [Hnodes _].
  destruct (Hnodes node Hnode) as (cg & Hcg & Hin).
  apply elem_of_process_chunks in Hcg as (e & _ & _ & Hok).
  apply process_episode_Ok in Hok as (g0 & nodes' & _ & Hmap & ->).
  simpl in Hin. apply exc_map_Ok in Hmap.
  apply list_elem_of_lookup in Hin as [i Hi].
  destruct (Forall2_lookup_r _ _ _ _ _ Hmap Hi) as (x & _ & Hx).
  apply localize_node_Ok in Hx as (_ & _ & d & d' & _ & Hd' & Hfinal).
  by exists d'.
Qed.

(** X10: every relationship of the graph that [process_data] returns has
    a properties dictionary whose [episode_number] is the tag of one of
    the episodes that have a synopsis. *)
Theorem process_data_relationships_tagged (episodes : list Prepare.Episode.t)
  (g : Prepare.GraphResponse.t) :
  process_data' episodes = Ok g ->
  forall rel, rel ∈ Prepare.GraphResponse.relationships g ->
    exists e d,
      e ∈ episodes
      /\ Prepare.synopsis_missing e = false
      /\ Prepare.Relationship.properties rel = Some d
      /\ dict_get d "episode_number" PNone = PStr (Prepare.episode_number_of e).
Proof.
  intros Hdata rel Hrel.
  destruct (process_data_members episodes g Hdata) as [_ Hrels].
  destruct (Hrels rel Hrel) as (cg & Hcg & Hin).
  apply elem_of_process_chunks in Hcg as (e & He & Hmiss & Hok).
  apply process_episode_Ok in Hok as (g0 & nodes' & _ & _ & ->).
  simpl in Hin. apply list_elem_of_fmap in Hin as (r0 & -> & _).
  exists e. eexists. split; [done|]. split; [done|]. split; [reflexivity|].
  apply dict_get_set_same.
Qed.

End ProcessMore.

(** X11: the language model is consulted only on the prompts of the
    episodes that have a synopsis: two models that agree on these prompts
    give the same chunk graphs. *)
Theorem process_chunks_prompts (UPDATED_TEMPLATE : string)
  (llm llm' : string -> Exc Prepare.GraphResponse.t)
  (episodes : list Prepare.Episode.t) :
  (forall e s, e ∈ episodes ->
     Prepare.Episode.synopsis e = Some s -> s <> "" ->
     llm (Prepare.prompt_for UPDATED_TEMPLATE s)
     = llm' (Prepare.prompt_for UPDATED_TEMPLATE s)) ->
  Prepare.process_chunks UPDATED_TEMPLATE llm episodes
  = Prepare.process_chunks UPDATED_TEMPLATE llm' episodes.
Proof.
  induction episodes as [|e episodes IH]; intros Hagree; [done|].
  rewrite !process_chunks_cons. f_equal.
  - unfold Prepare.process_step, Prepare.synopsis_missing.
    destruct (Prepare.Episode.synopsis e) as [s|] eqn:Hs; [|done].
    destruct (String.eqb s "") eqn:Hempty; [done|].
    apply String.eqb_neq in Hempty. simpl.
    unfold Prepare.process_episode.
    by rewrite (Hagree e s) by (done || by left).
  - apply IH. intros e' s He'. apply Hagree. by right.
Qed.

(** * Properties of the collection of the episodes *)

(** The loop of [fetch_episode] from any state: the rows are numbered
    from the counter on. *)
Lemma fetch_loop (season : Z) (rows : list Prepare.Row) :
  forall (episodes : list Prepare.Episode.t) (i : Z),
    fold_left (Prepare.fetch_step season) rows (episodes, i)
    = (episodes
         ++ imap (fun k row =>
                    Prepare.Episode.Build season (i + Z.of_nat k)
                                          (Prepare.synopsis_of_row row))
                 rows,
       (i + Z.of_nat (length rows))%Z).
Proof.
  induction rows as [|row rows IH]; intros episodes i; simpl.
  - by rewrite app_nil_r, Z.add_0_r.
  - rewrite IH, <- app_assoc. simpl. rewrite Z.add_0_r. f_equal.
    + f_equal. f_equal. apply imap_ext. intros k row' _. simpl.
      f_equal. lia.
    + lia.
Qed.

(** X12: [fetch_episode] gives one episode per row, in the order of the
    rows, numbered from 1 whether or not the rows have a synopsis, all with
    the season of the page, and each with the synopsis of its row. *)
Theorem episodes_of_rows_numbering (season : Z) (rows : list Prepare.Row) :
  length (Prepare.episodes_of_rows season rows) = length rows
  /\ forall (k : nat) (row : Prepare.Row),
      rows !! k = Some row ->
      Prepare.episodes_of_rows season rows !! k
      = Some (Prepare.Episode.Build season (Z.of_nat k + 1)
                                    (Prepare.synopsis_of_row row)).
Proof.
  unfold Prepare.episodes_of_rows. rewrite fetch_loop. simpl. split.
  - by rewrite length_imap.
  - intros k row Hk. rewrite list_lookup_imap, Hk. simpl.
    do 2 f_equal. lia.
Qed.

Section CollectFacts.

Variable fetch_episode : string -> Exc (list Prepare.Episode.t).

Abbreviation collect_from' := (Prepare.collect_from fetch_episode).

Lemma collect_loop (links : list string) :
  forall all_episodes,
    fold_left (Prepare.collect_step fetch_episode) links all_episodes
    = all_episodes ++ collect_from' links.
Proof.
  unfold Prepare.collect_from.
  induction links as [|link links IH]; intros all_episodes; simpl.
  - by rewrite app_nil_r.
  - rewrite IH, (IH (Prepare.collect_step fetch_episode [] link)).
    rewrite app_assoc. f_equal. unfold Prepare.collect_step.
    destruct (fetch_episode link); simpl; by rewrite ?app_nil_r.
Qed.

Lemma collect_from_app (links1 links2 : list string) :
  collect_from' (links1 ++ links2) = collect_from' links1 ++ collect_from' links2.
Proof.
  unfold Prepare.collect_from at 1. rewrite fold_left_app. apply collect_loop.
Qed.

(** X13: a page whose fetch raises is skipped and does not stop the
    collection: the episodes collected are those of the other links, page
    after page in the order of the links. *)
Theorem collect_skips_failed_link (link msg : string) :
  fetch_episode link = Raise msg ->
  forall before after,
    Prepare.collect_from fetch_episode (before ++ link :: after)
    = Prepare.collect_from fetch_episode before
      ++ Prepare.collect_from fetch_episode after.
Proof.
  intros Hfail before after.
  change (link :: after) with ([link] ++ after).
  rewrite !collect_from_app.
  replace (collect_from' [link]) with (@nil Prepare.Episode.t); [done|].
  unfold Prepare.collect_from, Prepare.collect_step. simpl. by rewrite Hfail.
Qed.

(** X14: a page that is fetched contributes its episodes, all of them and
    in their order, between those of the links before and after it. *)
Theorem collect_keeps_fetched_link (link : string) (episodes : list Prepare.Episode.t) :
  fetch_episode link = Ok episodes ->
  forall before after,
    Prepare.collect_from fetch_episode (before ++ link :: after)
    = Prepare.collect_from fetch_episode before
      ++ episodes ++ Prepare.collect_from fetch_episode after.
Proof.
  intros Hok before after.
  change (link :: after) with ([link] ++ after).
  rewrite !collect_from_app.
  replace (collect_from' [link]) with episodes; [done|].
  unfold Prepare.collect_from, Prepare.collect_step. simpl. by rewrite Hok.
Qed.

End CollectFacts.

Section MainFacts.

Variable py_str : option Dict -> string.
Variable UPDATED_TEMPLATE : string.
Variable llm_call_structured : string -> Exc Prepare.GraphResponse.t.
Variable fetch_episode : string -> Exc (list Prepare.Episode.t).
Variable FS : Type.
Variable save_output :
  list Prepare.Episode.t -> Prepare.GraphResponse.t -> FS -> Exc unit * FS.

Abbreviation main' :=
  (Prepare.main py_str UPDATED_TEMPLATE llm_call_structured fetch_episode FS
                save_output).
Abbreviation collected := (Prepare.collect_data fetch_episode).
Abbreviation processed :=
  (Prepare.process_data py_str UPDATED_TEMPLATE llm_call_structured
     (Prepare.collect_data fetch_episode)).

(** X15: [main] exits with 0 exactly when the key is set, episodes were
    collected, [process_data] returned a graph and [save_output], given
    the collected episodes and that graph, returned; it then leaves the
    files as [save_output] left them.  When the key is missing or empty,
    when no episode was collected or when [process_data] raises, it exits
    with 1 and has not touched the files. *)
Theorem main_exit_code (api_key : option string) (fs : FS) :
  (fst (main' api_key fs) = 0%Z
   <-> exists key g,
         api_key = Some key /\ key <> ""
         /\ Prepare.collect_data fetch_episode <> []
         /\ processed = Ok g
         /\ fst (save_output (Prepare.collect_data fetch_episode) g fs) = Ok tt)
  /\ (forall g, processed = Ok g -> fst (main' api_key fs) = 0%Z ->
        snd (main' api_key fs)
        = snd (save_output (Prepare.collect_data fetch_episode) g fs))
  /\ (api_key = None \/ api_key = Some ""
      \/ Prepare.collect_data fetch_episode = []
      \/ (exists msg, processed = Raise msg) ->
      main' api_key fs = (1%Z, fs)).
Proof.
  unfold Prepare.main.
  destruct api_key as [key|].
  2: { split; [|split]; [|done|done]. split; [done|]. by intros (? & ? & ? & _). }
  destruct (String.eqb key "") eqn:Hkey.
  { apply String.eqb_eq in Hkey as ->.
    split; [|split]; [|done|done]. split; [done|].
    by intros (? & ? & [= <-] & ? & _). }
  apply String.eqb_neq in Hkey.
  destruct collected as [|e es] eqn:Hcollected.
  { split; [|split]; [|done|done]. split; [done|]. by intros (? & ? & _ & _ & ? & _). }
  destruct (Prepare.process_data py_str UPDATED_TEMPLATE llm_call_structured (e :: es))
    as [g|msg] eqn:Hdata.
  2: { split; [|split]; [|done|done]. split; [done|]. by intros (? & ? & _ & _ & _ & ? & _). }
  destruct (save_output (e :: es) g fs) as [[[]|msg] fs'] eqn:Hsave; simpl.
  - split; [|split].
    + split; [|done]. intros _. exists key, g. by rewrite Hsave.
    + intros g' [= <-] _. by rewrite Hsave.
    + intros [?|[[= ->]|[?|[msg ?]]]]; done.
  - split; [|split].
    + split; [done|]. intros (key' & g' & _ & _ & _ & [= <-] & Hs).
      rewrite Hsave in Hs. discriminate.
    + done.
    + intros [?|[[= ->]|[?|[msg' ?]]]]; done.
Qed.

End MainFacts.

(** * Further properties of the writer on the property-graph store *)

Section StoreMore.

Import Ingest.

(** Whatever the names, a statement that goes through changes the store
    of the database and nothing else. *)
Lemma send_frame (q : Query) (db db' : Database.t) :
  send q db = Ok db' -> db' = Database.with_store db (Database.store db').
Proof.
  destruct q as [|label id props|type start_id end_id props]; simpl;
    unfold execute; simpl.
  - by intros [= <-].
  - destruct (plain_name label); [by intros [= <-]|].
    destruct (unreadable_name label); [done|].
    destruct (Database.beyond db _ _); [|done]. by intros [= <-].
  - destruct (plain_name type); [by intros [= <-]|].
    destruct (unreadable_name type); [done|].
    destruct (Database.beyond db _ _); [|done]. by intros [= <-].
Qed.

Lemma send_all_frame (qs : list Query) :
  forall db : Database.t,
    snd (send_all qs db)
    = Database.with_store db (Database.store (snd (send_all qs db))).
Proof.
  induction qs as [|q qs IH]; intros db.
  - simpl. by rewrite with_store_same.
  - unfold send_all in *. simpl. rewrite act_bind_eq, call_eq.
    destruct (send q db) as [db'|e] eqn:Hq; simpl.
    + rewrite IH at 1. by rewrite (send_frame _ _ _ Hq).
    + by rewrite with_store_same.
Qed.

Lemma run_frame (graph : Neo4jGraph.t) (db : Database.t) :
  snd (run graph db)
  = Database.with_store db (Database.store (snd (run graph db))).
Proof.
  rewrite run_as_queries.
  pose proof (send_all_frame (load_queries graph) db) as Hframe.
  by destruct (send_all (load_queries graph) db) as [[[]|e] db'].
Qed.

(** Whatever the names, a load starts from the empty store. *)
Lemma run_from_empty (graph : Neo4jGraph.t) (db : Database.t) :
  run graph db = run graph (Database.with_store db Store.empty).
Proof.
  rewrite !run_as_queries. unfold load_queries, send_all. simpl.
  by rewrite !act_bind_eq, !call_eq.
Qed.

(** X16: a load is a full replacement: the store it leaves and the result
    it returns do not depend on what the store held, and loading the same
    graph again changes nothing.  This holds of every graph, whatever its
    labels and relationship types. *)
Theorem run_replaces_store (graph : Neo4jGraph.t) (db : Database.t)
  (s0 s1 : Store.t) :
  run graph (Database.with_store db s0) = run graph (Database.with_store db s1)
  /\ run graph (snd (run graph (Database.with_store db s0)))
     = run graph (Database.with_store db s0).
Proof.
  split.
  - by rewrite (run_from_empty graph (Database.with_store db s0)),
               (run_from_empty graph (Database.with_store db s1)).
  - rewrite (run_from_empty graph (snd _)), run_frame.
    by rewrite (run_from_empty graph (Database.with_store db s0)).
Qed.

Lemma dict_mem_false (p : Dict) (k : string) :
  dict_mem p k = false <-> k ∉ dict_keys p.
Proof.
  unfold dict_keys. induction p as [|[k' v] p IH]; simpl.
  - split; [intros _; apply not_elem_of_nil|done].
  - rewrite not_elem_of_cons. destruct (String.eqb k' k) eqn:Hk.
    + apply String.eqb_eq in Hk as ->. split; [done|]. by intros [? _].
    + apply String.eqb_neq in Hk. rewrite IH. split; [|by intros [_ ?]].
      intros Hp. split; [congruence|done].
Qed.

Lemma set_plus_cons (m : gmap string PropertyValue) (k : string)
  (v : PropertyValue) (p : Dict) :
  set_plus m ((k, v) :: p)
  = set_plus (match v with PNone => delete k m | _ => <[k:=v]> m end) p.
Proof. by destruct v. Qed.

(** [SET n += $props] on a key that [props] has: its value is written, a
    null value removes it. *)
Lemma set_plus_lookup_present (p : Dict) (k : string) (v : PropertyValue) :
  forall m : gmap string PropertyValue,
    NoDup (dict_keys p) -> (k, v) ∈ p ->
    set_plus m p !! k = match v with PNone => None | _ => Some v end.
Proof.
  unfold dict_keys.
  induction p as [|[k' v'] p IH]; intros m Hnd Hin; simpl in Hnd.
  - by apply elem_of_nil in Hin.
  - apply NoDup_cons in Hnd as [Hfresh Hnd]. rewrite set_plus_cons.
    apply elem_of_cons in Hin as [[= -> ->]|Hin].
    + rewrite set_plus_lookup_absent by (by apply dict_mem_false).
      destruct v'; by rewrite ?lookup_insert_eq, ?lookup_delete_eq.
    + by apply IH.
Qed.

Lemma signature_stored_of (node : Neo4jNode.t) :
  keeps_id node -> signature (stored_of node) = node_signature node.
Proof.
  intros Hkeep. unfold signature, stored_of, node_signature. simpl.
  by rewrite set_plus_lookup_absent, lookup_singleton_eq.
Qed.

(** The node statement finds no node when the identity written is that
    of no node written before. *)
Lemma merge_fresh (written : list Neo4jNode.t) (nodes : list StoredNode.t)
  (node : Neo4jNode.t) :
  map signature nodes = map node_signature written ->
  node_identity node ∉ map node_identity written ->
  existsb (merge_matches (Neo4jNode.label node) (Neo4jNode.id node)) nodes = false.
Proof.
  intros Hsig Hfresh. apply not_true_is_false. intros Hex.
  apply existsb_exists in Hex as (m & Hm & Hmatch).
  rewrite merge_matches_signature in Hmatch.
  assert (Hsg : signature m ∈ map node_signature written).
  { rewrite <- Hsig. apply list_elem_of_fmap. exists m. split; [done|].
    by apply list_elem_of_In. }
  apply list_elem_of_fmap in Hsg as (w & Hw & Hin).
  rewrite Hw in Hmatch.
  unfold signature_matches, signature_has_id, node_signature in Hmatch.
  simpl in Hmatch. apply andb_true_iff in Hmatch as [Hlabel Hid].
  apply String.eqb_eq in Hid.
  apply bool_decide_eq_true, list_elem_of_singleton in Hlabel.
  apply Hfresh. apply list_elem_of_fmap. exists w. split; [|done].
  unfold node_identity. by rewrite Hid, Hlabel.
Qed.

Lemma node_writes_fresh_nodes (todo : list Neo4jNode.t) :
  forall (written : list Neo4jNode.t) (s : Store.t),
    Store.nodes s = map stored_of written ->
    NoDup (map node_identity (written ++ todo)) ->
    Forall keeps_id (written ++ todo) ->
    Store.nodes (apply_all (map node_query todo) s)
    = map stored_of (written ++ todo).
Proof.
  induction todo as [|n todo IH]; intros written s Hnodes Hnd Hkeep.
  - by rewrite app_nil_r.
  - unfold apply_all in *. simpl.
    replace (written ++ n :: todo) with ((written ++ [n]) ++ todo) in *
      by (by rewrite <- app_assoc).
    apply IH; [|done|done].
    unfold merge_node. rewrite (merge_fresh written).
    + simpl. by rewrite Hnodes, map_app.
    + rewrite Hnodes, map_map. apply map_ext_in. intros w Hw.
      apply signature_stored_of.
      rewrite Forall_forall in Hkeep. apply Hkeep.
      apply elem_of_app. left. apply elem_of_app. left. by apply list_elem_of_In.
    + rewrite map_app in Hnd. apply NoDup_app in Hnd as (Hnd & _ & _).
      rewrite map_app in Hnd. apply NoDup_app in Hnd as (_ & Hdisj & _).
      intros Hin. apply (Hdisj _ Hin). simpl. by apply list_elem_of_singleton.
Qed.

(** X17: write then read.  After a load of a graph whose labels and
    relationship types are plain names and whose nodes are pairwise
    distinct in (id, label), the store holds one node per graph node, in
    order, under the node's label, with the node's id as [id]; every
    property of the node can be read back, except that a property given
    as null is absent; and no other property is there. *)
Theorem load_then_read_nodes (graph : Neo4jGraph.t) (db : Database.t) :
  plain_graph graph ->
  NoDup (map node_identity (Neo4jGraph.nodes graph)) ->
  Store.nodes (Database.store (snd (run graph db)))
  = map stored_of (Neo4jGraph.nodes graph)
  /\ forall node,
      node ∈ Neo4jGraph.nodes graph ->
      NoDup (dict_keys (or_empty (Neo4jNode.properties node))) ->
      StoredNode.labels (stored_of node) = [Neo4jNode.label node]
      /\ StoredNode.props (stored_of node) !! "id" = Some (PStr (Neo4jNode.id node))
      /\ (forall k v,
            (k, v) ∈ or_empty (Neo4jNode.properties node) ->
            StoredNode.props (stored_of node) !! k
            = match v with PNone => None | _ => Some v end)
      /\ (forall k,
            k <> "id" -> k ∉ dict_keys (or_empty (Neo4jNode.properties node)) ->
            StoredNode.props (stored_of node) !! k = None).
Proof.
  intros Hplain Hnd. split.
  - rewrite (run_database _ _ Hplain), relationship_writes_store. simpl.
    unfold after_node_writes.
    apply (node_writes_fresh_nodes _ [] Store.empty); [done|done|].
    apply all_keep_id.
  - intros node Hnode Hkeys.
    pose proof (Neo4jNode.id_reserved node) as Hkeep.
    unfold stored_of. simpl. split; [done|]. split; [|split].
    + by rewrite set_plus_lookup_absent, lookup_singleton_eq.
    + intros k v Hkv. by apply set_plus_lookup_present.
    + intros k Hk Hout.
      rewrite set_plus_lookup_absent by (by apply dict_mem_false).
      by rewrite lookup_singleton_ne.
Qed.

(** The node statement finds a node exactly when the signature written
    is in the store, as long as the store holds signatures of graph
    nodes. *)
Lemma merge_matches_known (written : list Neo4jNode.t)
  (sigs : list (list string * option PropertyValue)) (node : Neo4jNode.t) :
  (forall sg, sg ∈ sigs -> sg ∈ map node_signature written) ->
  existsb (signature_matches (Neo4jNode.label node) (Neo4jNode.id node)) sigs = true
  <-> node_signature node ∈ sigs.
Proof.
  intros Hknown. rewrite existsb_exists. split.
  - intros (sg & Hsg & Hmatch). apply list_elem_of_In in Hsg.
    pose proof (Hknown sg Hsg) as Hw.
    apply list_elem_of_fmap in Hw as (w & -> & _).
    unfold signature_matches, signature_has_id, node_signature in Hmatch.
    simpl in Hmatch. apply andb_true_iff in Hmatch as [Hlabel Hid].
    apply String.eqb_eq in Hid.
    apply bool_decide_eq_true, list_elem_of_singleton in Hlabel.
    unfold node_signature. by rewrite Hlabel, <- Hid.
  - intros Hin. exists (node_signature node). split; [by apply list_elem_of_In|].
    unfold signature_matches, signature_has_id, node_signature. simpl.
    rewrite String.eqb_refl, andb_true_r.
    apply bool_decide_eq_true. by apply list_elem_of_singleton.
Qed.

(** The node writes keep one stored node per identity written. *)
Lemma node_writes_distinct (todo : list Neo4jNode.t) :
  forall (written : list Neo4jNode.t) (s : Store.t),
    Forall keeps_id todo ->
    NoDup (map signature (Store.nodes s)) ->
    (forall sg, sg ∈ map signature (Store.nodes s)
                <-> sg ∈ map node_signature written) ->
    NoDup (map signature (Store.nodes (apply_all (map node_query todo) s)))
    /\ forall sg,
         sg ∈ map signature (Store.nodes (apply_all (map node_query todo) s))
         <-> sg ∈ map node_signature (written ++ todo).
Proof.
  induction todo as [|n todo IH]; intros written s Hkeep Hnd Hset.
  - by rewrite app_nil_r.
  - apply Forall_cons in Hkeep as [Hn Hkeep].
    unfold apply_all in *. simpl.
    replace (written ++ n :: todo) with ((written ++ [n]) ++ todo)
      by (by rewrite <- app_assoc).
    pose proof (merge_matches_known written (map signature (Store.nodes s)) n)
      as Hknown.
    apply IH; [done| |]; rewrite (merge_node_signatures _ _ _ _ Hn);
      destruct (existsb _ (map signature (Store.nodes s))) eqn:Hex.
    + done.
    + apply NoDup_app. split; [done|]. split; [|apply NoDup_singleton].
      intros sg Hsg ->%list_elem_of_singleton.
      assert (Htrue : false = true); [|done].
      apply Hknown; [|done]. intros sg' Hsg'. by apply Hset.
    + intros sg. rewrite map_app, elem_of_app, <- Hset. simpl.
      rewrite list_elem_of_singleton. split; [by left|].
      intros [?| ->]; [done|]. apply Hknown; [|done].
      intros sg' Hsg'. by apply Hset.
    + intros sg. rewrite !map_app, !elem_of_app, Hset. simpl.
      by rewrite !list_elem_of_singleton.
Qed.

(** X18: nodes that repeat an (id, label) within one load are collapsed:
    when the labels and the relationship types are plain names, a load
    leaves as many stored nodes as the graph has distinct (id, label)
    pairs. *)
Theorem load_collapses_repeated_nodes (graph : Neo4jGraph.t) (db : Database.t) :
  plain_graph graph ->
  length (Store.nodes (Database.store (snd (run graph db))))
  = length (remove_dups (map node_identity (Neo4jGraph.nodes graph))).
Proof.
  intros Hplain.
  pose proof (all_keep_id (Neo4jGraph.nodes graph)) as Hkeep.
  rewrite (run_database _ _ Hplain), relationship_writes_store. simpl.
  destruct (node_writes_distinct (Neo4jGraph.nodes graph) [] Store.empty Hkeep)
    as [Hnd Hset].
  { constructor. }
  { intros sg. simpl. done. }
  fold (after_node_writes graph) in Hnd, Hset. simpl in Hset.
  rewrite <- (length_map signature).
  set (f := fun idl : string * string => ([idl.2], Some (PStr idl.1))).
  rewrite <- (length_map f (remove_dups _)).
  apply Permutation_length, NoDup_Permutation; [done| |].
  - apply NoDup_fmap_2; [|apply NoDup_remove_dups].
    intros [i1 l1] [i2 l2] Heq. unfold f in Heq. simpl in Heq. congruence.
  - intros sg. rewrite Hset. rewrite !list_elem_of_fmap. split.
    + intros (n & -> & Hn). exists (node_identity n). split; [done|].
      apply elem_of_remove_dups, list_elem_of_fmap. by exists n.
    + intros (idl & -> & Hidl). rewrite elem_of_remove_dups in Hidl.
      apply list_elem_of_fmap in Hidl as (n & -> & Hn). by exists n.
Qed.

Lemma concat_length_sum {A B : Type} (f : A -> list B) (l : list A) :
  length (concat (map f l)) = sum_list (map (fun x => length (f x)) l).
Proof.
  induction l as [|x l IH]; simpl; [done|]. by rewrite length_app, IH.
Qed.

(** X19: the number of edges a load leaves.  For a graph whose labels
    and relationship types are plain names and whose nodes are pairwise
    distinct in (id, label), every relationship gives one edge for each
    pair of a node with its start id and a node with its end id, so the
    store ends with the sum of these products. *)
Theorem load_edge_count (graph : Neo4jGraph.t) (db : Database.t) :
  plain_graph graph ->
  NoDup (map node_identity (Neo4jGraph.nodes graph)) ->
  length (Store.rels (Database.store (snd (run graph db))))
  = sum_list (map (edge_demand (Neo4jGraph.nodes graph))
                  (Neo4jGraph.relationships graph)).
Proof.
  intros Hplain Hnd.
  pose proof (after_node_writes_signatures graph Hnd) as Hsig.
  rewrite (run_database _ _ Hplain), relationship_writes_store. simpl.
  rewrite after_node_writes_rels. simpl.
  rewrite concat_length_sum. f_equal. apply map_ext. intros rel.
  unfold edges_of, edge_demand. rewrite created_edges_length.
  by rewrite !(positions_length_signature _ _ (Neo4jGraph.nodes graph) 0 Hsig).
Qed.

Lemma elem_of_positions (p : StoredNode.t -> bool) (l : list StoredNode.t) :
  forall (i j : nat),
    j ∈ positions p i l ->
    exists n, i <= j /\ l !! (j - i) = Some n /\ p n = true.
Proof.
  induction l as [|n l IH]; intros i j Hj; simpl in Hj.
  - by apply elem_of_nil in Hj.
  - destruct (p n) eqn:Hn.
    + apply elem_of_cons in Hj as [->|Hj].
      * exists n. rewrite Nat.sub_diag. by split; [lia|].
      * destruct (IH _ _ Hj) as (m & Hle & Hm & Hp).
        exists m. split; [lia|]. split; [|done].
        replace (j - i) with (S (j - S i)) by lia. done.
    + destruct (IH _ _ Hj) as (m & Hle & Hm & Hp).
      exists m. split; [lia|]. split; [|done].
      replace (j - i) with (S (j - S i)) by lia. done.
Qed.

(** X20: every edge that a load leaves joins stored nodes.  When the
    labels and the relationship types are plain names, it comes from a
    relationship of the graph, has its type and its properties without
    the null ones, starts at a stored node that carries the start id and
    ends at a stored node that carries the end id. *)
Theorem load_edges_attached (graph : Neo4jGraph.t) (db : Database.t)
  (edge : StoredRel.t) :
  plain_graph graph ->
  edge ∈ Store.rels (Database.store (snd (run graph db))) ->
  exists rel a b,
    rel ∈ Neo4jGraph.relationships graph
    /\ StoredRel.type edge = Neo4jRelationship.type rel
    /\ StoredRel.props edge = set_plus ∅ (or_empty (Neo4jRelationship.properties rel))
    /\ Store.nodes (Database.store (snd (run graph db))) !! StoredRel.start edge
       = Some a
    /\ has_id (Neo4jRelationship.start_node_id rel) a = true
    /\ Store.nodes (Database.store (snd (run graph db))) !! StoredRel.end_ edge
       = Some b
    /\ has_id (Neo4jRelationship.end_node_id rel) b = true.
Proof.
  intros Hplain.
  rewrite (run_database _ _ Hplain), relationship_writes_store. simpl.
  rewrite after_node_writes_rels. simpl.
  intros Hedge. apply list_elem_of_In, in_concat in Hedge as (l & Hl & Hedge).
  apply in_map_iff in Hl as (rel & <- & Hrel).
  unfold edges_of, created_edges in Hedge.
  apply in_flat_map in Hedge as (i & Hi & Hedge).
  apply in_map_iff in Hedge as (j & <- & Hj).
  apply list_elem_of_In, elem_of_positions in Hi as (a & _ & Ha & Hpa).
  apply list_elem_of_In, elem_of_positions in Hj as (b & _ & Hb & Hpb).
  rewrite Nat.sub_0_r in Ha, Hb.
  exists rel, a, b. simpl. by split; [apply list_elem_of_In|].
Qed.

End StoreMore.

(** * The episode tags *)

Lemma uint_string_no_E (d : Decimal.uint) :
  forall a b, NilEmpty.string_of_uint d = (a +:+ String "E" b)%string -> False.
Proof.
  induction d; intros [|c a] b; simpl; try discriminate;
    intros [= _ Hrest]; by eapply IHd.
Qed.

Lemma split_at_E_app (a b : string) :
  (forall a1 a2, a <> (a1 +:+ String "E" a2)%string) ->
  split_at_E (a +:+ String "E" b) = Some (a, b).
Proof.
  induction a as [|c a IH]; intros HnoE; simpl; [done|].
  destruct (Ascii.eqb c "E") eqn:Hc.
  - apply Ascii.eqb_eq in Hc as ->. by destruct (HnoE EmptyString a).
  - rewrite IH; [done|]. intros a1 a2 ->. by apply (HnoE (String c a1) a2).
Qed.

Lemma py_int_str_no_E (z : Z) :
  forall a1 a2, py_int_str z <> (a1 +:+ String "E" a2)%string.
Proof.
  assert (Hu : forall d a1 a2,
             NilZero.string_of_uint d <> (a1 +:+ String "E" a2)%string).
  { intros d a1 a2 Heq. destruct d; try by eapply uint_string_no_E.
    simpl in Heq. destruct a1 as [|c [|c' a1]]; simpl in Heq; discriminate. }
  intros a1 a2. unfold py_int_str.
  destruct (Z.to_int z) as [d|d]; simpl; [apply Hu|].
  destruct a1 as [|c a1]; simpl; [done|]. intros [= _ Heq]. by eapply Hu.
Qed.

Lemma read_int_py_int_str (z : Z) : read_int (py_int_str z) = Some z.
Proof.
  unfold read_int, py_int_str. rewrite NilZero.isi.
  - simpl. by rewrite DecimalZ.of_to.
  - destruct z; simpl; try done. intros [= Hnil].
    by apply DecimalPos.Unsigned.to_uint_nonnil in Hnil.
  - destruct z; simpl; try done. intros [= Hnil].
    by apply DecimalPos.Unsigned.to_uint_nonnil in Hnil.
Qed.

Lemma uint_string_nonempty (d : Decimal.uint) :
  1 <= String.length (NilZero.string_of_uint d).
Proof. destruct d; simpl; lia. Qed.

Lemma read_int_format_02d (n : Z) : read_int (Prepare.format_02d n) = Some n.
Proof.
  unfold Prepare.format_02d.
  destruct (Nat.ltb (String.length (py_int_str n)) 2) eqn:Hshort;
    [|apply read_int_py_int_str].
  apply Nat.ltb_lt in Hshort.
  destruct n as [|p|p].
  - reflexivity.
  - unfold read_int, py_int_str. simpl.
    pose proof (DecimalPos.Unsigned.to_uint_nonnil p) as Hnonnil.
    assert (Hs : NilZero.string_of_uint (Pos.to_uint p)
                 = NilEmpty.string_of_uint (Pos.to_uint p)).
    { by destruct (Pos.to_uint p). }
    change ("" +:+ NilZero.string_of_uint (Pos.to_uint p))%string
      with (NilZero.string_of_uint (Pos.to_uint p)).
    rewrite Hs, NilEmpty.usu. simpl.
    f_equal. change (Z.of_uint (Decimal.D0 (Pos.to_uint p)))
      with (Z.of_uint (Pos.to_uint p)).
    change (Z.of_uint (Pos.to_uint p)) with (Z.of_int (Z.to_int (Z.pos p))).
    apply DecimalZ.of_to.
  - exfalso. unfold py_int_str in Hshort. simpl in Hshort.
    pose proof (uint_string_nonempty (Pos.to_uint p)). lia.
Qed.

(** X21: an episode tag can be read back: from [S{season}E{number:02d}]
    the season and the number of the episode are recovered, the zero
    padding notwithstanding, so that episodes with different seasons or
    numbers never share a tag. *)
Theorem episode_tag_round_trip (e e' : Prepare.Episode.t) :
  read_tag (Prepare.episode_number_of e)
  = Some (Prepare.Episode.season e, Prepare.Episode.episode_in_season e)
  /\ (Prepare.episode_number_of e = Prepare.episode_number_of e' ->
      Prepare.Episode.season e = Prepare.Episode.season e'
      /\ Prepare.Episode.episode_in_season e
         = Prepare.Episode.episode_in_season e').
Proof.
  assert (Hread : forall x,
             read_tag (Prepare.episode_number_of x)
             = Some (Prepare.Episode.season x, Prepare.Episode.episode_in_season x)).
  { intros x. unfold Prepare.episode_number_of. simpl.
    change (split_at_E _)
      with (split_at_E
              (py_int_str (Prepare.Episode.season x)
               +:+ String "E"
                     (Prepare.format_02d (Prepare.Episode.episode_in_season x)))).
    rewrite split_at_E_app by apply py_int_str_no_E.
    by rewrite read_int_py_int_str, read_int_format_02d. }
  split; [apply Hread|].
  intros Heq. pose proof (Hread e) as He. rewrite Heq, Hread in He.
  by injection He as -> ->.
Qed.

(** * The further properties on concrete inputs *)

(** The nodes of one episode have distinct keys and are all kept. *)
Lemma combine_node_count_witness :
  Prepare.GraphResponse.nodes
    (Prepare.combine_chunk_graphs Prepare.str_plain [MergeExamples.episode1])
  = all_nodes_of [MergeExamples.episode1].
Proof.
  destruct (combine_node_count Prepare.str_plain [MergeExamples.episode1])
    as (_ & _ & Hall).
  apply Hall. apply (bool_decide_unpack _). vm_compute. exact I.
Defined.

(** A node with a name of the table, with and without another property. *)
Lemma localize_node_present_witness :
  (forall s korean,
      dict_get [("name", PStr "Nezuko Kamado")] "name" (PStr "") = PStr s ->
      Prepare.KOREAN_NODE_MAP !! s = Some korean ->
      exists d',
        Prepare.localize_node ProcessExamples.nezuko
        = Ok (Prepare.Node.Build (Prepare.Node.id ProcessExamples.nezuko)
                                 (Prepare.Node.label ProcessExamples.nezuko)
                                 (Some d'))
        /\ dict_get d' "name" (PStr "") = PStr korean
        /\ (forall k default, k <> "name" ->
              dict_get d' k default
              = dict_get [("name", PStr "Nezuko Kamado")] k default)
        /\ dict_keys d' = dict_keys [("name", PStr "Nezuko Kamado")])
  /\ ((forall s, dict_get [("name", PStr "Nezuko Kamado")] "name" (PStr "") = PStr s ->
                 Prepare.KOREAN_NODE_MAP !! s = None) ->
      Prepare.localize_node ProcessExamples.nezuko = Ok ProcessExamples.nezuko).
Proof.
  apply (localize_node_present ProcessExamples.nezuko [("name", PStr "Nezuko Kamado")]).
  reflexivity.
Defined.

(** The episode without a synopsis, among any others. *)
Lemma missing_synopsis_skipped_witness :
  Prepare.process_chunks ProcessExamples.template ProcessExamples.full_llm
    ([ProcessExamples.pilot] ++ MoreExamples.silent :: [ProcessExamples.pilot])
  = Prepare.process_chunks ProcessExamples.template ProcessExamples.full_llm
      ([ProcessExamples.pilot] ++ [ProcessExamples.pilot])
  /\ Prepare.process_data Prepare.str_plain ProcessExamples.template
       ProcessExamples.full_llm
       ([ProcessExamples.pilot] ++ MoreExamples.silent :: [ProcessExamples.pilot])
     = Prepare.process_data Prepare.str_plain ProcessExamples.template
         ProcessExamples.full_llm
         ([ProcessExamples.pilot] ++ [ProcessExamples.pilot]).
Proof.
  apply (missing_synopsis_skipped Prepare.str_plain ProcessExamples.template
           ProcessExamples.full_llm MoreExamples.silent).
  left. reflexivity.
Defined.

(** The pilot under a language model that is out of reach. *)
Lemma failed_extraction_skipped_witness :
  Prepare.process_chunks ProcessExamples.template MoreExamples.failing_llm
    ([MoreExamples.silent] ++ ProcessExamples.pilot :: [])
  = Prepare.process_chunks ProcessExamples.template MoreExamples.failing_llm
      ([MoreExamples.silent] ++ [])
  /\ Prepare.process_data Prepare.str_plain ProcessExamples.template
       MoreExamples.failing_llm ([MoreExamples.silent] ++ ProcessExamples.pilot :: [])
     = Prepare.process_data Prepare.str_plain ProcessExamples.template
         MoreExamples.failing_llm ([MoreExamples.silent] ++ []).
Proof.
  apply (failed_extraction_skipped Prepare.str_plain ProcessExamples.template
           MoreExamples.failing_llm ProcessExamples.pilot
           "Tanjiro meets Giyu." "timeout").
  - reflexivity.
  - reflexivity.
Defined.

(** Only an episode without a synopsis: nothing to merge. *)
Lemma process_data_outcome_witness :
  Prepare.process_data Prepare.str_plain ProcessExamples.template
    ProcessExamples.full_llm [MoreExamples.silent]
  = Raise "그래프를 성공적으로 추출하지 못했습니다.".
Proof.
  destruct (process_data_outcome Prepare.str_plain ProcessExamples.template
              ProcessExamples.full_llm [MoreExamples.silent]) as (Hiff & _).
  apply Hiff. intros e He. left.
  apply list_elem_of_singleton in He. rewrite He. reflexivity.
Defined.

(** The pilot and the response in which every node has properties. *)
Lemma process_episode_outcome_witness :
  map Prepare.Node.id (Prepare.GraphResponse.nodes MoreExamples.full_processed)
  = map Prepare.Node.id (Prepare.GraphResponse.nodes ProcessExamples.full_response)
  /\ map Prepare.Node.label (Prepare.GraphResponse.nodes MoreExamples.full_processed)
     = map Prepare.Node.label (Prepare.GraphResponse.nodes ProcessExamples.full_response)
  /\ map (fun r => (Prepare.Relationship.type r,
                    Prepare.Relationship.start_node_id r,
                    Prepare.Relationship.end_node_id r))
         (Prepare.GraphResponse.relationships MoreExamples.full_processed)
     = map (fun r => (Prepare.Relationship.type r,
                      Prepare.Relationship.start_node_id r,
                      Prepare.Relationship.end_node_id r))
           (Prepare.GraphResponse.relationships ProcessExamples.full_response).
Proof.
  destruct (process_episode_outcome ProcessExamples.template ProcessExamples.full_llm
              ProcessExamples.pilot "Tanjiro meets Giyu.") as [_ Hshape].
  apply (Hshape MoreExamples.full_processed ProcessExamples.full_response).
  - vm_compute. reflexivity.
  - reflexivity.
Defined.

Lemma process_data_nodes_localized_witness :
  exists d, Prepare.Node.properties MoreExamples.nezuko_ko = Some d
            /\ Prepare.korean_name (dict_get d "name" (PStr "")) = None.
Proof.
  apply (process_data_nodes_localized Prepare.str_plain ProcessExamples.template
           ProcessExamples.full_llm [ProcessExamples.pilot]
           MoreExamples.full_processed).
  - vm_compute. reflexivity.
  - in_list.
Defined.

Lemma process_data_relationships_tagged_witness :
  exists e d,
    e ∈ [ProcessExamples.pilot]
    /\ Prepare.synopsis_missing e = false
    /\ Prepare.Relationship.properties MoreExamples.protects_tagged = Some d
    /\ dict_get d "episode_number" PNone = PStr (Prepare.episode_number_of e).
Proof.
  apply (process_data_relationships_tagged Prepare.str_plain ProcessExamples.template
           ProcessExamples.full_llm [ProcessExamples.pilot]
           MoreExamples.full_processed).
  - vm_compute. reflexivity.
  - in_list.
Defined.

(** Two language models that differ, but not on the prompt of the pilot. *)
Lemma process_chunks_prompts_witness :
  Prepare.process_chunks ProcessExamples.template ProcessExamples.full_llm
    [ProcessExamples.pilot; MoreExamples.silent]
  = Prepare.process_chunks ProcessExamples.template MoreExamples.picky_llm
      [ProcessExamples.pilot; MoreExamples.silent].
Proof.
  apply (process_chunks_prompts ProcessExamples.template ProcessExamples.full_llm
           MoreExamples.picky_llm [ProcessExamples.pilot; MoreExamples.silent]).
  intros e s He Hs _.
  apply elem_of_cons in He as [->|He].
  - injection Hs as <-. reflexivity.
  - apply list_elem_of_singleton in He. rewrite He in Hs. discriminate.
Defined.

(** The second row has no summary and is still episode 2. *)
Lemma episodes_of_rows_numbering_witness :
  Prepare.episodes_of_rows 1 MoreExamples.rows !! 1
  = Some (Prepare.Episode.Build 1 2 None).
Proof.
  destruct (episodes_of_rows_numbering 1 MoreExamples.rows) as [_ Hrow].
  apply (Hrow 1 Prepare.NoSummaryRow). reflexivity.
Defined.

Lemma collect_skips_failed_link_witness :
  Prepare.collect_from MoreExamples.patchy_fetch
    (["season_1"] ++ "season_9" :: ["season_2"])
  = Prepare.collect_from MoreExamples.patchy_fetch ["season_1"]
    ++ Prepare.collect_from MoreExamples.patchy_fetch ["season_2"].
Proof.
  apply (collect_skips_failed_link MoreExamples.patchy_fetch "season_9" "404").
  reflexivity.
Defined.

Lemma collect_keeps_fetched_link_witness :
  Prepare.collect_from MoreExamples.patchy_fetch
    (["season_9"] ++ "season_1" :: ["season_2"])
  = Prepare.collect_from MoreExamples.patchy_fetch ["season_9"]
    ++ [ProcessExamples.pilot]
    ++ Prepare.collect_from MoreExamples.patchy_fetch ["season_2"].
Proof.
  apply (collect_keeps_fetched_link MoreExamples.patchy_fetch "season_1"
           [ProcessExamples.pilot]).
  reflexivity.
Defined.

(** Without a key nothing is fetched, asked or saved. *)
Lemma main_exit_code_witness :
  Prepare.main Prepare.str_plain ProcessExamples.template ProcessExamples.full_llm
    MoreExamples.patchy_fetch _ MoreExamples.saving None []
  = (1%Z, []).
Proof.
  destruct (main_exit_code Prepare.str_plain ProcessExamples.template
              ProcessExamples.full_llm MoreExamples.patchy_fetch _
              MoreExamples.saving None []) as (_ & _ & Hearly).
  apply Hearly. left. reflexivity.
Defined.

Lemma load_then_read_nodes_witness :
  Ingest.Store.nodes
    (Ingest.Database.store (snd (Ingest.run IngestExamples.scenario IngestExamples.used)))
  = map Ingest.stored_of (Ingest.Neo4jGraph.nodes IngestExamples.scenario)
  /\ forall node,
      node ∈ Ingest.Neo4jGraph.nodes IngestExamples.scenario ->
      NoDup (dict_keys (Ingest.or_empty (Ingest.Neo4jNode.properties node))) ->
      Ingest.StoredNode.labels (Ingest.stored_of node) = [Ingest.Neo4jNode.label node]
      /\ Ingest.StoredNode.props (Ingest.stored_of node) !! "id"
         = Some (PStr (Ingest.Neo4jNode.id node))
      /\ (forall k v,
            (k, v) ∈ Ingest.or_empty (Ingest.Neo4jNode.properties node) ->
            Ingest.StoredNode.props (Ingest.stored_of node) !! k
            = match v with PNone => None | _ => Some v end)
      /\ (forall k,
            k <> "id" ->
            k ∉ dict_keys (Ingest.or_empty (Ingest.Neo4jNode.properties node)) ->
            Ingest.StoredNode.props (Ingest.stored_of node) !! k = None).
Proof.
  apply (load_then_read_nodes IngestExamples.scenario IngestExamples.used).
  - split; repeat constructor.
  - apply (bool_decide_unpack _). vm_compute. exact I.
Defined.

(** A node listed twice is stored once. *)
Lemma load_collapses_repeated_nodes_witness :
  length (Ingest.Store.nodes
            (Ingest.Database.store
               (snd (Ingest.run MoreExamples.repeated IngestExamples.fresh))))
  = length (remove_dups (map Ingest.node_identity
                             (Ingest.Neo4jGraph.nodes MoreExamples.repeated))).
Proof.
  apply (load_collapses_repeated_nodes MoreExamples.repeated IngestExamples.fresh).
  split; repeat constructor.
Defined.

(** One id under two labels: the relationship asks for four edges. *)
Lemma load_edge_count_witness :
  length (Ingest.Store.rels
            (Ingest.Database.store
               (snd (Ingest.run IngestExamples.twins IngestExamples.fresh))))
  = sum_list (map (Ingest.edge_demand (Ingest.Neo4jGraph.nodes IngestExamples.twins))
                  (Ingest.Neo4jGraph.relationships IngestExamples.twins)).
Proof.
  apply (load_edge_count IngestExamples.twins IngestExamples.fresh).
  - split; repeat constructor.
  - apply (bool_decide_unpack _). vm_compute. exact I.
Defined.

(** The one edge of the scenario. *)
Lemma load_edges_attached_witness :
  exists rel a b,
    rel ∈ Ingest.Neo4jGraph.relationships IngestExamples.scenario
    /\ "FIGHTS" = Ingest.Neo4jRelationship.type rel
    /\ Ingest.set_plus ∅ [("episode_number", PStr "S1E01")]
       = Ingest.set_plus ∅ (Ingest.or_empty (Ingest.Neo4jRelationship.properties rel))
    /\ Ingest.Store.nodes
         (Ingest.Database.store
            (snd (Ingest.run IngestExamples.scenario IngestExamples.used)))
         !! 0 = Some a
    /\ Ingest.has_id (Ingest.Neo4jRelationship.start_node_id rel) a = true
    /\ Ingest.Store.nodes
         (Ingest.Database.store
            (snd (Ingest.run IngestExamples.scenario IngestExamples.used)))
         !! 1 = Some b
    /\ Ingest.has_id (Ingest.Neo4jRelationship.end_node_id rel) b = true.
Proof.
  apply (load_edges_attached IngestExamples.scenario IngestExamples.used
           (Ingest.StoredRel.Build "FIGHTS" 0 1
              (Ingest.set_plus ∅ [("episode_number", PStr "S1E01")]))).
  - split; repeat constructor.
  - vm_compute. constructor.
Defined.

(** The tag of the pilot is read back, and two records of one episode,
    with and without its synopsis, have one tag and one number. *)
Lemma episode_tag_round_trip_witness :
  read_tag (Prepare.episode_number_of ProcessExamples.pilot)
  = Some (Prepare.Episode.season ProcessExamples.pilot,
          Prepare.Episode.episode_in_season ProcessExamples.pilot)
  /\ Prepare.Episode.season ProcessExamples.pilot
     = Prepare.Episode.season (Prepare.Episode.Build 1 1 None)
  /\ Prepare.Episode.episode_in_season ProcessExamples.pilot
     = Prepare.Episode.episode_in_season (Prepare.Episode.Build 1 1 None).
Proof.
  destruct (episode_tag_round_trip ProcessExamples.pilot
                                   (Prepare.Episode.Build 1 1 None))
    as [Hread Hinj].
  split; [exact Hread|]. apply Hinj. reflexivity.
Defined.
